(** * Mood tracking notebook: label encoding, dataset adapter and inference

    A shallow embedding of [2finetuned.ipynb].  The notebook is a linear
    script; every cell that carries logic of its own is rendered here as a
    function of the values the cell reads:

    - [preprocess_function] (primary dataset, integer class labels);
    - the [adjusted_labels] loop and [CustomDataset] (secondary dataset,
      string labels binarised by scikit-learn's [LabelBinarizer]);
    - the accuracy cell ([torch.argmax] against the raw labels);
    - the inference cell ([torch.sigmoid], the [threshold] comparison and the
      two display loops over [custom_input]).

    Conventions.  Tensor and array entries (float32 / float64) are modelled by
    real numbers: rounding, infinities and NaN are outside the model, and of
    [torch.sigmoid] the statements use what rounding preserves (values in
    [[0, 1]], monotonicity, the value 0.5 at 0).  Python exceptions are the
    left summand of [res].  The pretrained tokenizer's
    sub-word segmentation and the transformer's forward pass are external and
    enter as parameters ([Tokenizer], [Model]); padding, truncation and the
    binarizer follow the documented behaviour of the libraries. *)

From Stdlib Require Import String Ascii.
From Stdlib Require Import Reals Lra ZArith Lia Bool Arith List.
From Stdlib Require Import Sorting.Sorted.
From Stdlib Require OrderedTypeEx.
Import ListNotations.

(** ** Exceptions *)

Inductive pyerr : Set :=
| IndexError
| ValueError
| NotAString    (* a library call was handed a cell that is no string: a
                   TypeError or a ValueError, depending on where the cell sits *)
| MetricError.  (* the metric rejects the columns it is handed; the class of
                   the exception depends on which check fails first *)

Definition res (A : Type) : Type := (pyerr + A)%type.

Definition ok {A : Type} (a : A) : res A := inr a.
Definition raise {A : Type} (e : pyerr) : res A := inl e.

Definition bind {A B : Type} (m : res A) (k : A -> res B) : res B :=
  match m with
  | inl e => inl e
  | inr a => k a
  end.

Notation "x <- m ;; k" := (bind m (fun x => k))
  (at level 61, m at next level, right associativity).

(** [for idx, x in enumerate(xs): state = body idx x state], stopping at the
    first exception. *)
Fixpoint for_enumerate {A St : Type} (body : nat -> A -> St -> res St)
         (idx : nat) (xs : list A) (s : St) : res St :=
  match xs with
  | [] => ok s
  | x :: rest => s' <- body idx x s ;; for_enumerate body (S idx) rest s'
  end.

(** The rows a comprehension [[f x for x in xs]] collects, in order. *)
Fixpoint collect {A B : Type} (f : A -> res B) (xs : list A) : res (list B) :=
  match xs with
  | [] => ok []
  | x :: rest => y <- f x ;; ys <- collect f rest ;; ok (y :: ys)
  end.

(** A column of a DataFrame as [pd.read_csv] returns it for a text column:
    a cell is a string, or NaN ([None]) where the field is empty in the
    file.  (A column that [pd.read_csv] parses as numbers is outside the
    model.)  [text_cells] is what a library call that needs strings makes
    of such a column: the first NaN makes it raise. *)
Definition text_cells (column : list (option string)) : res (list string) :=
  collect (fun cell => match cell with
                       | Some s => ok s
                       | None => raise NotAString
                       end) column.

(** ** The fragment of NumPy the notebook uses *)

Module Np.

Definition matrix : Type := list (list R).

(** [np.zeros((n, m))] *)
Definition zeros (n m : nat) : matrix := repeat (repeat 0%R m) n.

(** An integer index along an axis of size [n]: negative indices count
    from the end, anything outside [-n, n) raises. *)
Definition index (n : nat) (i : Z) : res nat :=
  if ((0 <=? i) && (i <? Z.of_nat n))%Z then ok (Z.to_nat i)
  else if ((- Z.of_nat n <=? i) && (i <? 0))%Z then ok (Z.to_nat (i + Z.of_nat n))
  else raise IndexError.

(** [row[j] = v] for an index already normalised. *)
Definition set_at (row : list R) (j : nat) (v : R) : list R :=
  firstn j row ++ v :: skipn (S j) row.

(** [row[i] = v] *)
Definition setitem (row : list R) (i : Z) (v : R) : res (list R) :=
  j <- index (length row) i ;; ok (set_at row j v).

(** [row[:k] = src]: the slice has [min k (len row)] cells; the source
    must have as many entries, or exactly one (broadcast). *)
Definition set_prefix (row : list R) (k : nat) (src : list R) : res (list R) :=
  let width := Nat.min k (length row) in
  if length src =? width then ok (src ++ skipn width row)
  else if length src =? 1 then ok (repeat (hd 0%R src) width ++ skipn width row)
  else raise ValueError.

(** [m[i, ...] = ...] for a row position [i] produced by [enumerate]. *)
Definition update_row (m : matrix) (i : nat)
           (f : list R -> res (list R)) : res matrix :=
  match nth_error m i with
  | None => raise IndexError
  | Some row => row' <- f row ;; ok (firstn i m ++ row' :: skipn (S i) m)
  end.

End Np.

(** ** Label Space *)

Definition num_labels : nat := 28.

Open Scope string_scope.

Definition emotion_labels : list string :=
  [ "admiration"; "amusement"; "anger"; "annoyance"; "approval"; "caring";
    "confusion"; "curiosity"; "desire"; "disappointment"; "disapproval"; "disgust";
    "embarrassment"; "excitement"; "fear"; "gratitude"; "grief"; "joy"; "love";
    "nervousness"; "optimism"; "pride"; "realization"; "relief"; "remorse";
    "sadness"; "surprise"; "neutral" ].

Close Scope string_scope.

(** Python's [list.index]: position of the first occurrence. *)
Fixpoint index_of (c : string) (names : list string) : option nat :=
  match names with
  | [] => None
  | n :: rest =>
      if String.eqb n c then Some 0%nat
      else option_map S (index_of c rest)
  end.

(** ** Label Encoder, primary dataset *)

(** The label part of [preprocess_function]:
<<
    labels = np.zeros((len(examples['label']), num_labels))
    for idx, label in enumerate(examples['label']):
        labels[idx, label] = 1
>> *)
Definition preprocess_labels (label_column : list Z) : res Np.matrix :=
  for_enumerate
    (fun idx label labels =>
       Np.update_row labels idx (fun row => Np.setitem row label 1%R))
    0 label_column
    (Np.zeros (length label_column) num_labels).

(** [encode l]: the label vector of a record whose raw label is [l], i.e.
    the row [preprocess_function] builds for it. *)
Definition encode (l : Z) : res (list R) :=
  Np.setitem (repeat 0%R num_labels) l 1%R.

(** ** Label Encoder, decoding *)

Definition threshold : R := 0.5%R.

(** One cell of [(probabilities > threshold).int()]. *)
Definition exceeds (t p : R) : Z := if Rgt_dec p t then 1%Z else 0%Z.

(** The inner display loop:
<<
    for emotion, pred in zip(emotion_labels, predictions[i].tolist()):
        if pred == 1: print(emotion)
>> *)
Fixpoint predicted_emotions (names : list string) (preds : list Z) : list string :=
  match names, preds with
  | emotion :: names', pred :: preds' =>
      if (pred =? 1)%Z then emotion :: predicted_emotions names' preds'
      else predicted_emotions names' preds'
  | _, _ => []
  end.

Definition decode (p : list R) (t : R) : list string :=
  predicted_emotions emotion_labels (map (exceeds t) p).

(** ** The fragment of scikit-learn the notebook uses *)

Module Sk.

(** Insertion into a sorted list without duplicates (code-point order). *)
Fixpoint insert_unique (s : string) (sorted : list string) : list string :=
  match sorted with
  | [] => [s]
  | c :: rest =>
      match String.compare s c with
      | Lt => s :: c :: rest
      | Eq => c :: rest
      | Gt => c :: insert_unique s rest
      end
  end.

(** [classes_]: the sorted distinct values of the fitted column. *)
Definition classes (y : list string) : list string :=
  fold_right insert_unique [] y.

(** One row of [label_binarize]: a single column for one or two classes
    (the positive class being the second one), one column per class
    otherwise. *)
Definition binarize (cls : list string) (s : string) : list Z :=
  match cls with
  | [_] => [0%Z]
  | [_; pos] => [if String.eqb s pos then 1%Z else 0%Z]
  | _ => map (fun c => if String.eqb c s then 1%Z else 0%Z) cls
  end.

(** [LabelBinarizer().fit_transform(y)]; fitting an empty column raises. *)
Definition fit_transform (y : list string) : res (list (list Z)) :=
  match y with
  | [] => raise ValueError
  | _ => ok (map (binarize (classes y)) y)
  end.

End Sk.

(** ** Label Encoder, secondary dataset *)

(** The row assignment [adjusted_labels[i, :len(label)] = label] on a fresh
    row of zeros; the integer entries are stored as floats. *)
Definition adjust (label : list Z) : res (list R) :=
  Np.set_prefix (repeat 0%R num_labels) (length label) (map IZR label).

(**
<<
    adjusted_labels = np.zeros((len(labels), num_labels))
    for i, label in enumerate(labels):
        adjusted_labels[i, :len(label)] = label
>> *)
Definition adjusted_labels (labels : list (list Z)) : res Np.matrix :=
  for_enumerate
    (fun i label adjusted =>
       Np.update_row adjusted i
         (fun row => Np.set_prefix row (length label) (map IZR label)))
    0 labels
    (Np.zeros (length labels) num_labels).

(** String labels to label vectors: binarise, then re-align. *)
Definition encode_sentiments (sentiment : list string) : res Np.matrix :=
  labels <- Sk.fit_transform sentiment ;; adjusted_labels labels.

(** ** Accuracy cell *)

(** [torch.argmax] along the last dimension: the index of the first maximal
    value; an empty dimension raises. *)
Fixpoint argmax_from (best : nat) (best_value : R) (idx : nat) (row : list R) : nat :=
  match row with
  | [] => best
  | x :: rest =>
      if Rgt_dec x best_value then argmax_from idx x (S idx) rest
      else argmax_from best best_value (S idx) rest
  end.

Definition argmax (row : list R) : res nat :=
  match row with
  | [] => raise IndexError
  | x :: rest => ok (argmax_from 0 x 1 rest)
  end.

Fixpoint count_matches (predictions : list nat) (references : list Z) : nat :=
  match predictions, references with
  | p :: ps, r :: rs =>
      (if (Z.of_nat p =? r)%Z then 1 else 0) + count_matches ps rs
  | _, _ => 0
  end.

(** The metric stores references as 32-bit integers. *)
Definition int32 (l : Z) : bool :=
  ((-2147483648 <=? l) && (l <? 2147483648))%Z.

(** The accuracy metric: the fraction of positions at which prediction and
    reference agree.  Columns of different lengths and references that do
    not fit 32 bits are rejected.  (Of an empty batch the metric reports
    nan, for which the reals have no value; the properties below are about
    non-empty batches, the only ones the cell can reach: its tokenizer call
    raises on an empty list of texts.) *)
Definition accuracy (predictions : list nat) (references : list Z) : res R :=
  if (length predictions =? length references) && forallb int32 references
  then ok (INR (count_matches predictions references) / INR (length references))%R
  else raise MetricError.

(** ** Probabilities *)

(** [torch.sigmoid], applied to every entry of a tensor independently: the
    logistic function.  [torch] rounds it to float32, where it stays
    monotone, stays within [[0, 1]] and maps 0 to 0.5, but reaches 0 and 1
    and is no longer injective; the properties below rely only on the
    former. *)
Definition sigmoid (x : R) : R := (1 / (1 + exp (- x)))%R.

Definition to_probabilities (logits : Np.matrix) : Np.matrix :=
  map (map sigmoid) logits.

(** Python's [xs[i]] on a list or along the first axis of a tensor. *)
Definition getitem {A : Type} (xs : list A) (i : nat) : res A :=
  match nth_error xs i with
  | Some x => ok x
  | None => raise IndexError
  end.

Definition enumerate {A : Type} (xs : list A) : list (nat * A) :=
  combine (seq 0 (length xs)) xs.

(** ** Encodings and datasets *)

Inductive padding_strategy : Set :=
| PadLongest      (* padding=True *)
| PadMaxLength.   (* padding="max_length" *)

(** The dict a tokenizer call returns; ["labels"] is absent until assigned. *)
Record BatchEncoding : Type := {
  input_ids : list (list Z);
  attention_mask : list (list Z);
  labels : option Np.matrix
}.

Definition set_labels (enc : BatchEncoding) (m : Np.matrix) : BatchEncoding :=
  {| input_ids := input_ids enc;
     attention_mask := attention_mask enc;
     labels := Some m |}.

(** What [CustomDataset.__getitem__] returns. *)
Record EncodedExample : Type := {
  token_ids : list Z;
  mask : list Z;
  label_vector : option (list R)
}.

Record CustomDataset : Type := { encodings : BatchEncoding }.

(** [CustomDataset.__len__] *)
Definition len (d : CustomDataset) : nat := length (input_ids (encodings d)).

(** [CustomDataset.__getitem__]: every key of the encodings indexed at [idx]. *)
Definition dataset_getitem (d : CustomDataset) (idx : nat) : res EncodedExample :=
  ids <- getitem (input_ids (encodings d)) idx ;;
  am <- getitem (attention_mask (encodings d)) idx ;;
  match labels (encodings d) with
  | None => ok {| token_ids := ids; mask := am; label_vector := None |}
  | Some m =>
      row <- getitem m idx ;;
      ok {| token_ids := ids; mask := am; label_vector := Some row |}
  end.

(** One block of the inference cell's output. *)
Record PredictionResult : Type := {
  text : string;
  probabilities : list (string * R);
  predicted_labels : list string
}.

Definition custom_input : list string :=
  [ "I am feeling wonderful today!";
    "I am so annoyed and angry right now!";
    "I'm confused about what to do next." ]%string.

(** ** External collaborators *)

(** The pretrained tokenizer: its sub-word segmentation (ids of a text,
    special tokens not included) and the ids of its special tokens. *)
Record Tokenizer : Type := {
  tokenize : string -> list Z;
  bos_token_id : Z;
  eos_token_id : Z;
  pad_token_id : Z
}.

(** The transformer's forward pass, from an encoded batch to its logits. *)
Definition Model : Type := BatchEncoding -> Np.matrix.

(** The contract of the forward pass: logits of shape [[batch, num_labels]]. *)
Definition logits_shape (model : Model) : Prop :=
  forall enc : BatchEncoding,
    length (model enc) = length (input_ids enc) /\
    Forall (fun row => length row = num_labels) (model enc).

(** A character-level tokenizer with RoBERTa's special ids and a model
    whose logits are all zero: concrete collaborators to run the pipeline on. *)
Definition char_tokenizer : Tokenizer :=
  {| tokenize := fun s => map (fun a => Z.of_nat (nat_of_ascii a)) (list_ascii_of_string s);
     bos_token_id := 0;
     eos_token_id := 2;
     pad_token_id := 1 |}.

Definition zero_model : Model :=
  fun enc => map (fun _ => repeat 0%R num_labels) (input_ids enc).

(** A CSV with 29 records, each with a sentiment of its own ("A", "B", ...). *)
Definition wide_dataset : list (option string * option string) :=
  map (fun n => (Some "hello"%string,
                 Some (String (ascii_of_nat (65 + n)) EmptyString)))
      (seq 0 29).

Section Pipeline.

Variable tok : Tokenizer.
Variable model : Model.

(** Truncation to [max_length] ids, the two special tokens included. *)
Definition encode_text (max_length : nat) (s : string) : list Z :=
  bos_token_id tok :: firstn (max_length - 2) (tokenize tok s) ++ [eos_token_id tok].

Definition pad_ids (width : nat) (ids : list Z) : list Z :=
  ids ++ repeat (pad_token_id tok) (width - length ids).

Definition pad_mask (width : nat) (ids : list Z) : list Z :=
  repeat 1%Z (length ids) ++ repeat 0%Z (width - length ids).

Definition padded_width (padding : padding_strategy) (max_length : nat)
           (seqs : list (list Z)) : nat :=
  match padding with
  | PadLongest => list_max (map (@length Z) seqs)
  | PadMaxLength => max_length
  end.

(** The batch a tokenizer call returns for a non-empty list of texts. *)
Definition encode_batch (texts : list string) (padding : padding_strategy)
           (max_length : nat) : BatchEncoding :=
  let seqs := map (encode_text max_length) texts in
  let width := padded_width padding max_length seqs in
  {| input_ids := map (pad_ids width) seqs;
     attention_mask := map (pad_mask width) seqs;
     labels := None |}.

(** [tokenizer(texts, padding=padding, truncation=True, max_length=max_length)]:
    the fast tokenizer raises [IndexError] on an empty list of texts. *)
Definition tokenizer (texts : list string) (padding : padding_strategy)
           (max_length : nat) : res BatchEncoding :=
  match texts with
  | [] => raise IndexError
  | _ :: _ => ok (encode_batch texts padding max_length)
  end.

(** The primary dataset's adapter, on one batch of columns. *)
Definition preprocess_function (examples_text : list string)
           (examples_label : list Z) : res BatchEncoding :=
  inputs <- tokenizer examples_text PadMaxLength 128 ;;
  labels <- preprocess_labels examples_label ;;
  ok (set_labels inputs labels).

(** The secondary dataset's adapter, from the DataFrame [pd.read_csv]
    returns (its columns [content] and [sentiment], row by row) up to the
    construction of [custom_dataset]. *)
Definition custom_dataset (new_dataset : list (option string * option string))
  : res CustomDataset :=
  sentiment <- text_cells (map snd new_dataset) ;;
  labels <- Sk.fit_transform sentiment ;;
  adjusted <- adjusted_labels labels ;;
  content <- text_cells (map fst new_dataset) ;;
  encoded_inputs <- tokenizer content PadLongest 128 ;;
  ok {| encodings := set_labels encoded_inputs adjusted |}.

(** The accuracy cell: predictions of the model on the validation texts. *)
Definition accuracy_predictions (texts : list string) : res (list nat) :=
  encoded_inputs <- tokenizer texts PadLongest 128 ;;
  let logits := model encoded_inputs in
  collect argmax logits.

Definition evaluate_accuracy (texts : list string) (label_column : list Z) : res R :=
  predictions <- accuracy_predictions texts ;;
  accuracy predictions label_column.

(** The inference cell.  The two display loops run over the same
    [enumerate(custom_input)]; their blocks are gathered per input, as the
    cell prints them when it runs to completion.  (A run that stops with an
    exception returns no blocks here, whereas the cell has printed the
    blocks before the exception; the properties below are about runs that
    complete and about the tokenizer call, which precedes all printing.) *)
Definition predict (texts : list string) (t : R) : res (list PredictionResult) :=
  encoded_inputs <- tokenizer texts PadLongest 128 ;;
  let logits := model encoded_inputs in
  let probs := to_probabilities logits in
  let predictions := map (map (exceeds t)) probs in
  collect
    (fun '(i, txt) =>
       p <- getitem probs i ;;
       preds <- getitem predictions i ;;
       ok {| text := txt;
             probabilities := combine emotion_labels p;
             predicted_labels := predicted_emotions emotion_labels preds |})
    (enumerate texts).

End Pipeline.

(** ** Specification vocabulary *)

(** A label vector of width [num_labels] whose only non-zero entry is a 1
    at position [j]. *)
Definition is_one_hot (v : list R) (j : nat) : Prop :=
  length v = num_labels /\
  forall i, i < num_labels -> nth i v 0%R = if i =? j then 1%R else 0%R.

Definition one_hot (j n : nat) : list R :=
  repeat 0%R j ++ 1%R :: repeat 0%R (n - S j).

(** A vocabulary whose classes sit at the positions the Label Space gives
    them. *)
Definition aligned (cls : list string) : Prop :=
  forall j c, nth_error cls j = Some c -> nth_error emotion_labels j = Some c.

(** A DataFrame without missing cells. *)
Definition complete (new_dataset : list (option string * option string)) : Prop :=
  forall content sentiment, In (content, sentiment) new_dataset ->
    content <> None /\ sentiment <> None.

(** The strings of a column, missing cells left out. *)
Definition strings_of (column : list (option string)) : list string :=
  flat_map (fun cell => match cell with Some s => [s] | None => [] end) column.

(** [before a b]: category [a] comes before category [b] in the Label Space. *)
Definition before (a b : string) : Prop :=
  exists i j,
    index_of a emotion_labels = Some i /\
    index_of b emotion_labels = Some j /\
    i < j.

(** Entry [(i, j)] of a matrix, when there is one. *)
Definition entry (m : Np.matrix) (i j : nat) : option R :=
  match nth_error m i with
  | Some row => nth_error row j
  | None => None
  end.

(** * Properties *)

(** ** Loops over fresh rows *)

Lemma bind_ok {A B : Type} (a : A) (k : A -> res B) : (x <- ok a ;; k x) = k a.
Proof. reflexivity. Qed.

Lemma ok_inj {A : Type} (a b : A) : ok a = ok b -> a = b.
Proof. intros H. injection H. auto. Qed.

Lemma firstn_length_app {A : Type} (l1 l2 : list A) : firstn (length l1) (l1 ++ l2) = l1.
Proof. induction l1 as [|a l1 IH]; simpl; [destruct l2 | rewrite IH]; reflexivity. Qed.

Lemma skipn_length_app {A : Type} (l1 l2 : list A) : skipn (length l1) (l1 ++ l2) = l2.
Proof. induction l1 as [|a l1 IH]; simpl; [reflexivity | exact IH]. Qed.

Lemma skipn_S_length_app {A : Type} (l1 l2 : list A) (a : A) :
  skipn (S (length l1)) (l1 ++ a :: l2) = l2.
Proof. induction l1 as [|b l1 IH]; [reflexivity | exact IH]. Qed.

(** A loop that rewrites row [i] of a matrix of identical fresh rows from
    the [i]-th input alone computes the rows one input at a time. *)
Lemma rows_loop {A : Type} (g : A -> list R -> res (list R)) (z : list R) :
  forall (xs : list A) (done : Np.matrix),
    for_enumerate (fun i x m => Np.update_row m i (g x))
                  (length done) xs (done ++ repeat z (length xs))
    = (rows <- collect (fun x => g x z) xs ;; ok (done ++ rows)).
Proof.
  induction xs as [|x xs IH]; intros done.
  - reflexivity.
  - cbn [for_enumerate collect length repeat].
    unfold Np.update_row at 1.
    rewrite nth_error_app2 by lia. rewrite Nat.sub_diag. cbn [nth_error].
    destruct (g x z) as [e|row'] eqn:Hg; cbn [bind]; [reflexivity|].
    rewrite firstn_length_app, skipn_S_length_app.
    replace (S (length done)) with (length (done ++ [row']))
      by (rewrite length_app; simpl; lia).
    replace (done ++ row' :: repeat z (length xs))
      with ((done ++ [row']) ++ repeat z (length xs))
      by (rewrite <- app_assoc; reflexivity).
    rewrite bind_ok, IH.
    destruct (collect (fun x0 => g x0 z) xs) as [e|rows]; cbn [bind ok]; [reflexivity|].
    rewrite <- app_assoc. reflexivity.
Qed.

Lemma preprocess_labels_rows (label_column : list Z) :
  preprocess_labels label_column = collect encode label_column.
Proof.
  pose proof (rows_loop (fun label row => Np.setitem row label 1%R)
                        (repeat 0%R num_labels) label_column []) as H.
  cbn [length app] in H.
  unfold preprocess_labels, Np.zeros. rewrite H.
  change (fun x => Np.setitem (repeat 0%R num_labels) x 1%R) with encode.
  destruct (collect encode label_column); reflexivity.
Qed.

Lemma adjusted_labels_rows (labels : list (list Z)) :
  adjusted_labels labels = collect adjust labels.
Proof.
  pose proof (rows_loop (fun label row => Np.set_prefix row (length label) (map IZR label))
                        (repeat 0%R num_labels) labels []) as H.
  cbn [length app] in H.
  unfold adjusted_labels, Np.zeros. rewrite H.
  change (fun x => Np.set_prefix (repeat 0%R num_labels) (length x) (map IZR x)) with adjust.
  destruct (collect adjust labels); reflexivity.
Qed.

Lemma collect_ok {A B : Type} (f : A -> res B) :
  forall xs ys, collect f xs = ok ys ->
    length ys = length xs /\
    forall i x, nth_error xs i = Some x ->
      exists y, nth_error ys i = Some y /\ f x = ok y.
Proof.
  induction xs as [|x xs IH]; simpl; intros ys H.
  - injection H as <-. split; [reflexivity|]. intros [|i] y Hy; discriminate.
  - destruct (f x) as [e|y] eqn:Hf; simpl in H; [discriminate|].
    destruct (collect f xs) as [e|ys'] eqn:Hc; simpl in H; [discriminate|].
    injection H as <-. destruct (IH ys' eq_refl) as [Hl Hn].
    split; [simpl; congruence|].
    intros [|i] x' Hx; simpl in *.
    + injection Hx as <-. eauto.
    + eauto.
Qed.

Lemma collect_total {A B : Type} (f : A -> res B) :
  forall xs, (forall x, In x xs -> exists y, f x = ok y) ->
    exists ys, collect f xs = ok ys.
Proof.
  induction xs as [|x xs IH]; simpl; intros H.
  - eauto.
  - destruct (H x (or_introl eq_refl)) as [y ->].
    destruct IH as [ys ->]; [intros; apply H; auto|].
    simpl. eauto.
Qed.

Lemma collect_map {A B : Type} (f : A -> res B) (g : A -> B) :
  forall xs, (forall x, In x xs -> f x = ok (g x)) -> collect f xs = ok (map g xs).
Proof.
  induction xs as [|x xs IH]; intros H; [reflexivity|].
  cbn [collect map]. rewrite (H x (or_introl eq_refl)), bind_ok.
  rewrite IH by (intros; apply H; right; assumption). reflexivity.
Qed.

Lemma collect_raises {A B : Type} (f : A -> res B) (e : pyerr) :
  (forall x e', f x = raise e' -> e' = e) ->
  forall xs, (exists x, In x xs /\ f x = raise e) -> collect f xs = raise e.
Proof.
  intros Honly. induction xs as [|x xs IH]; intros (bad & Hin & Hbad).
  - contradiction.
  - cbn [collect]. destruct (f x) as [e'|y] eqn:Hf.
    + rewrite (Honly x e' Hf). reflexivity.
    + destruct Hin as [->|Hin]; [unfold raise in Hbad; congruence|].
      cbn [bind]. rewrite IH by eauto. reflexivity.
Qed.

(** ** One-hot rows *)

Lemma firstn_repeat {A : Type} (a : A) :
  forall j n, j <= n -> firstn j (repeat a n) = repeat a j.
Proof.
  induction j as [|j IH]; intros [|n] H; simpl; try reflexivity; try lia.
  rewrite IH by lia. reflexivity.
Qed.

Lemma skipn_repeat {A : Type} (a : A) :
  forall j n, skipn j (repeat a n) = repeat a (n - j).
Proof.
  induction j as [|j IH]; intros [|n]; simpl; try reflexivity.
  apply IH.
Qed.

Lemma set_at_zeros (j n : nat) :
  j < n -> Np.set_at (repeat 0%R n) j 1%R = one_hot j n.
Proof.
  intros H. unfold Np.set_at, one_hot.
  rewrite firstn_repeat by lia. rewrite skipn_repeat. reflexivity.
Qed.

Lemma length_one_hot (j n : nat) : j < n -> length (one_hot j n) = n.
Proof.
  intros H. unfold one_hot. rewrite length_app. simpl.
  rewrite !repeat_length. lia.
Qed.

Lemma nth_one_hot (j n i : nat) :
  nth i (one_hot j n) 0%R = if i =? j then 1%R else 0%R.
Proof.
  unfold one_hot. destruct (Nat.eqb_spec i j) as [->|Hne].
  - rewrite app_nth2; rewrite repeat_length; [|lia].
    rewrite Nat.sub_diag. reflexivity.
  - destruct (lt_dec i j) as [Hlt|Hge].
    + rewrite app_nth1 by (rewrite repeat_length; lia). apply nth_repeat.
    + rewrite app_nth2; rewrite repeat_length; [|lia].
      destruct (i - j) as [|k] eqn:Hk; [lia|]. simpl. apply nth_repeat.
Qed.

Lemma one_hot_is_one_hot (j : nat) : j < num_labels -> is_one_hot (one_hot j num_labels) j.
Proof.
  intros H. split; [apply length_one_hot; exact H|].
  intros i _. apply nth_one_hot.
Qed.

Lemma encode_in_range (l : Z) :
  (0 <= l < 28)%Z -> encode l = ok (one_hot (Z.to_nat l) num_labels).
Proof.
  intros H. unfold encode, Np.setitem, Np.index. rewrite repeat_length.
  change (Z.of_nat num_labels) with 28%Z. cbn [Z.opp].
  destruct (Z.leb_spec 0 l); [|lia]. destruct (Z.ltb_spec l 28); [|lia].
  cbn [andb bind ok]. rewrite set_at_zeros; [reflexivity|].
  unfold num_labels. lia.
Qed.

Lemma encode_wraps (l : Z) :
  (-28 <= l < 0)%Z -> encode l = ok (one_hot (Z.to_nat (l + 28)) num_labels).
Proof.
  intros H. unfold encode, Np.setitem, Np.index. rewrite repeat_length.
  change (Z.of_nat num_labels) with 28%Z. cbn [Z.opp].
  destruct (Z.leb_spec 0 l); [lia|]. cbn [andb].
  destruct (Z.leb_spec (-28) l); [|lia]. destruct (Z.ltb_spec l 0); [|lia].
  cbn [andb bind ok]. rewrite set_at_zeros; [reflexivity|].
  unfold num_labels. lia.
Qed.

Lemma encode_raises (l : Z) :
  (l < -28 \/ 28 <= l)%Z -> encode l = raise IndexError.
Proof.
  intros H. unfold encode, Np.setitem, Np.index. rewrite repeat_length.
  change (Z.of_nat num_labels) with 28%Z. cbn [Z.opp].
  destruct (Z.leb_spec 0 l), (Z.ltb_spec l 28), (Z.leb_spec (-28) l), (Z.ltb_spec l 0);
    cbn [andb bind]; try reflexivity; lia.
Qed.

(** ** Thresholding *)

Lemma exceeds_1_iff (t p : R) : exceeds t p = 1%Z <-> (p > t)%R.
Proof.
  unfold exceeds. destruct (Rgt_dec p t); split; intros H; try assumption;
    try reflexivity; try discriminate; contradiction.
Qed.

Lemma exceeds_zero : exceeds threshold 0%R = 0%Z.
Proof. unfold exceeds, threshold. destruct (Rgt_dec 0 0.5); [lra | reflexivity]. Qed.

Lemma exceeds_one : exceeds threshold 1%R = 1%Z.
Proof. unfold exceeds, threshold. destruct (Rgt_dec 1 0.5); [reflexivity | lra]. Qed.

Lemma exceeds_tie (t : R) : exceeds t t = 0%Z.
Proof. unfold exceeds. destruct (Rgt_dec t t); [lra | reflexivity]. Qed.

Lemma predicted_zeros (names : list string) :
  forall k, predicted_emotions names (map (exceeds threshold) (repeat 0%R k)) = [].
Proof.
  induction names as [|a names IH]; intros [|k]; simpl; try reflexivity.
  rewrite exceeds_zero. simpl. apply IH.
Qed.

Lemma predicted_one_hot :
  forall (j : nat) (names : list string) (n : nat),
    j < length names ->
    predicted_emotions names (map (exceeds threshold) (one_hot j n))
    = [nth j names EmptyString].
Proof.
  unfold one_hot.
  induction j as [|j IH]; intros [|a names] n H; simpl in H; try lia.
  - simpl. rewrite exceeds_one. simpl. rewrite predicted_zeros. reflexivity.
  - cbn [repeat app map predicted_emotions nth]. rewrite exceeds_zero.
    cbn [Z.eqb].
    replace (n - S (S j)) with ((n - 1) - S j) by lia. apply IH. lia.
Qed.

Lemma predicted_subset (names : list string) :
  forall preds c, In c (predicted_emotions names preds) -> In c names.
Proof.
  induction names as [|a names IH]; intros [|q preds] c H; simpl in *; try contradiction.
  destruct (q =? 1)%Z; [destruct H as [H|H]|]; eauto.
Qed.

Lemma predicted_iff (names : list string) :
  NoDup names ->
  forall preds c,
    In c (predicted_emotions names preds) <->
    exists j, index_of c names = Some j /\ nth_error preds j = Some 1%Z.
Proof.
  induction names as [|a names IH]; intros Hnd preds c.
  - simpl. split; [contradiction|]. intros (j & Hj & _). discriminate.
  - inversion Hnd as [|a' names' Hnotin Hnd']; subst.
    destruct preds as [|q preds].
    + simpl. split; [contradiction|]. intros (j & _ & Hj). destruct j; discriminate.
    + cbn [predicted_emotions index_of].
      destruct (String.eqb_spec a c) as [->|Hne].
      * destruct (Z.eqb_spec q 1) as [->|Hq].
        -- split; [|intros; left; reflexivity].
           intros _. exists 0. split; reflexivity.
        -- split.
           ++ intros H. apply predicted_subset in H. contradiction.
           ++ intros (j & Hj & Hn). injection Hj as <-. simpl in Hn. congruence.
      * assert (Hrec : In c (predicted_emotions names preds) <->
                       exists j, option_map S (index_of c names) = Some j /\
                                 nth_error (q :: preds) j = Some 1%Z).
        { rewrite (IH Hnd' preds c). split.
          - intros (j & Hj & Hn). exists (S j). rewrite Hj. split; [reflexivity | exact Hn].
          - intros (j & Hj & Hn). destruct (index_of c names) as [j'|]; [|discriminate].
            injection Hj as <-. exists j'. split; [reflexivity | exact Hn]. }
        destruct (q =? 1)%Z; [|exact Hrec].
        rewrite <- Hrec. simpl. split; [intros [H|H]; [contradiction | exact H] | auto].
Qed.

Lemma emotion_labels_NoDup : NoDup emotion_labels.
Proof.
  unfold emotion_labels.
  repeat (constructor; [simpl; intuition discriminate|]).
  constructor.
Qed.

Lemma emotion_labels_length : length emotion_labels = num_labels.
Proof. reflexivity. Qed.

Lemma decode_ties (p : list R) (t : R) :
  Forall (fun x => x = t) p -> decode p t = [].
Proof.
  unfold decode. generalize emotion_labels.
  induction p as [|x p IH]; intros names H.
  - destruct names; reflexivity.
  - inversion H as [|x' p' Hx Hp]; subst.
    destruct names as [|a names]; [reflexivity|].
    simpl. rewrite exceeds_tie. simpl. apply IH. exact Hp.
Qed.

(** ** Label Encoder: encoding and decoding *)

(** C1.  For every probability vector [p] and threshold [t], [decode p t]
    predicts category [c] exactly when the probability at the position of
    [c] in the Label Space is strictly greater than [t]; and when every
    probability equals the threshold (in particular 0.5 everywhere against
    the default threshold) nothing is predicted. *)
Theorem decode_iff_strictly_above :
  (forall (p : list R) (t : R) (c : string),
      In c (decode p t) <->
      exists j x, index_of c emotion_labels = Some j /\
                  nth_error p j = Some x /\ (x > t)%R) /\
  (forall (p : list R) (t : R), Forall (fun x => x = t) p -> decode p t = []).
Proof.
  split.
  - intros p t c. unfold decode.
    rewrite (predicted_iff _ emotion_labels_NoDup). split.
    + intros (j & Hj & Hn). rewrite nth_error_map in Hn.
      destruct (nth_error p j) as [x|] eqn:Hx; [|discriminate].
      simpl in Hn. injection Hn as Hn. apply exceeds_1_iff in Hn.
      exists j, x. auto.
    + intros (j & x & Hj & Hx & Hgt). exists j. split; [exact Hj|].
      rewrite nth_error_map, Hx. simpl. f_equal. apply exceeds_1_iff. exact Hgt.
  - exact decode_ties.
Qed.

(** Twenty-eight probabilities of 0.5 against the threshold 0.5. *)
Lemma decode_iff_strictly_above_witness :
  decode (repeat 0.5%R 28) 0.5%R = [].
Proof.
  apply (proj2 decode_iff_strictly_above).
  repeat constructor.
Defined.

(** C3.  For every raw integer label [l] in [[0, N)], the one-hot encoding
    of [l] decodes, at the default threshold, to the single category at
    position [l] of the Label Space. *)
Theorem decode_encode_round_trip (l : Z) :
  (0 <= l < 28)%Z ->
  exists v, encode l = ok v /\
            preprocess_labels [l] = ok [v] /\
            decode v threshold = [nth (Z.to_nat l) emotion_labels EmptyString].
Proof.
  intros H. exists (one_hot (Z.to_nat l) num_labels).
  pose proof (encode_in_range l H) as He.
  split; [exact He|]. split.
  - rewrite preprocess_labels_rows. cbn [collect]. rewrite He. reflexivity.
  - unfold decode. apply predicted_one_hot.
    rewrite emotion_labels_length. unfold num_labels. lia.
Qed.

(** The round trip at label 17. *)
Lemma decode_encode_round_trip_witness :
  exists v, encode 17 = ok v /\
            preprocess_labels [17%Z] = ok [v] /\
            decode v threshold = ["joy"%string].
Proof.
  apply (decode_encode_round_trip 17). lia.
Defined.

(** C7, as stated, fails: the label -1 lies outside [[0, N)], yet it is
    encoded (into the last position) instead of raising. *)
Lemma encode_minus_one_succeeds :
  ~ (0 <= -1 < 28)%Z /\ encode (-1) = ok (repeat 0%R 27 ++ [1%R]).
Proof.
  split; [lia | reflexivity].
Qed.

(** C7, amended.  An integer label in [[0, N)] is encoded as the vector with
    a single 1 at that index and 0 elsewhere; a label in [[-N, 0)] is
    encoded likewise at index [N + l]; every other label raises. *)
Theorem encode_integer_label :
  (forall l : Z,
      ((0 <= l < 28)%Z ->
       exists v, encode l = ok v /\ is_one_hot v (Z.to_nat l)) /\
      ((-28 <= l < 0)%Z ->
       exists v, encode l = ok v /\ is_one_hot v (Z.to_nat (l + 28))) /\
      ((l < -28 \/ 28 <= l)%Z -> encode l = raise IndexError)) /\
  (forall label_column : list Z,
      ((forall l, In l label_column -> (-28 <= l < 28)%Z) ->
       preprocess_labels label_column
       = ok (map (fun l => one_hot (Z.to_nat (l mod 28)) num_labels) label_column)) /\
      ((exists l, In l label_column /\ (l < -28 \/ 28 <= l)%Z) ->
       preprocess_labels label_column = raise IndexError)).
Proof.
  split.
  - intros l. split; [|split]; intros H.
    + exists (one_hot (Z.to_nat l) num_labels). split.
      * apply encode_in_range. exact H.
      * apply one_hot_is_one_hot. unfold num_labels. lia.
    + exists (one_hot (Z.to_nat (l + 28)) num_labels). split.
      * apply encode_wraps. exact H.
      * apply one_hot_is_one_hot. unfold num_labels. lia.
    + apply encode_raises. exact H.
  - intros col. rewrite preprocess_labels_rows. split.
    + intros Hall. apply collect_map. intros l Hl. apply Hall in Hl.
      destruct (Z_lt_le_dec l 0) as [Hneg|Hpos].
      * rewrite encode_wraps by lia. do 3 f_equal.
        apply Z.mod_unique with (q := (-1)%Z); lia.
      * rewrite encode_in_range by lia. do 3 f_equal.
        symmetry. apply Z.mod_small. lia.
    + intros (l & Hin & Hout). apply collect_raises.
      * intros x e He. destruct (Z_lt_le_dec x (-28)) as [H1|H1];
          [rewrite encode_raises in He by lia; unfold raise in He; congruence|].
        destruct (Z_lt_le_dec x 0) as [H2|H2];
          [rewrite encode_wraps in He by lia; discriminate|].
        destruct (Z_lt_le_dec x 28) as [H3|H3];
          [rewrite encode_in_range in He by lia; discriminate|].
        rewrite encode_raises in He by lia. unfold raise in He. congruence.
      * exists l. split; [exact Hin | apply encode_raises; exact Hout].
Qed.

(** The three ranges at the labels 3, -28 and 28. *)
Lemma encode_integer_label_witness :
  (exists v, encode 3 = ok v /\ is_one_hot v 3) /\
  (exists v, encode (-28) = ok v /\ is_one_hot v 0) /\
  encode 28 = raise IndexError /\
  preprocess_labels [0; -1]%Z
  = ok (map (fun l => one_hot (Z.to_nat (l mod 28)) num_labels) [0; -1]%Z) /\
  preprocess_labels [0; 28; 1]%Z = raise IndexError.
Proof.
  split; [|split; [|split; [|split]]].
  - apply (proj1 (proj1 encode_integer_label 3%Z)). lia.
  - apply (proj1 (proj2 (proj1 encode_integer_label (-28)%Z))). lia.
  - apply (proj2 (proj2 (proj1 encode_integer_label 28%Z))). lia.
  - apply (proj1 (proj2 encode_integer_label [0; -1]%Z)).
    simpl. intros l [<-|[<-|[]]]; lia.
  - apply (proj2 (proj2 encode_integer_label [0; 28; 1]%Z)).
    exists 28%Z. simpl. split; [auto | lia].
Defined.

(** ** Re-alignment of the secondary dataset's label vectors *)

Lemma adjust_pads (b : list Z) :
  length b <= num_labels ->
  adjust b = ok (map IZR b ++ repeat 0%R (num_labels - length b)).
Proof.
  intros H. unfold adjust, Np.set_prefix.
  rewrite repeat_length, length_map, Nat.min_l by exact H.
  rewrite Nat.eqb_refl, skipn_repeat. reflexivity.
Qed.

Lemma adjust_overflows (b : list Z) :
  num_labels < length b -> adjust b = raise ValueError.
Proof.
  intros H. unfold adjust, Np.set_prefix.
  rewrite repeat_length, length_map, Nat.min_r by lia.
  destruct (Nat.eqb_spec (length b) num_labels); [lia|].
  destruct (Nat.eqb_spec (length b) 1); [unfold num_labels in H; lia|].
  reflexivity.
Qed.

Lemma adjust_length (b : list Z) (v : list R) :
  adjust b = ok v -> length v = num_labels.
Proof.
  destruct (le_lt_dec (length b) num_labels) as [Hle|Hgt].
  - rewrite adjust_pads by exact Hle. intros H.
    assert (Hv : v = map IZR b ++ repeat 0%R (num_labels - length b))
      by (unfold ok in H; congruence).
    subst v. rewrite length_app, length_map, repeat_length. lia.
  - rewrite adjust_overflows by exact Hgt. discriminate.
Qed.

(** C2, as stated, fails: a binarized vector of length 29 is not truncated
    to width 28; the slice assignment raises and no vector is produced. *)
Lemma adjust_does_not_truncate :
  length (repeat 0%Z 28 ++ [1%Z]) = 29 /\
  adjust (repeat 0%Z 28 ++ [1%Z]) = raise ValueError.
Proof.
  split; reflexivity.
Qed.

(** C2, amended.  A binarized label vector [b] of length M <= N is
    re-aligned to width N by zero-padding: entry [j] equals [b[j]] for
    j < M and 0 for M <= j < N.  For M > N the re-alignment raises. *)
Theorem adjust_zero_pads :
  (forall b : list Z,
      (length b <= num_labels ->
       exists v, adjust b = ok v /\
                 length v = num_labels /\
                 (forall j, j < length b -> nth j v 0%R = IZR (nth j b 0%Z)) /\
                 (forall j, length b <= j < num_labels -> nth j v 0%R = 0%R)) /\
      (num_labels < length b -> adjust b = raise ValueError)) /\
  (forall labels : list (list Z),
      ((forall b, In b labels -> length b <= num_labels) ->
       adjusted_labels labels
       = ok (map (fun b => map IZR b ++ repeat 0%R (num_labels - length b)) labels)) /\
      ((exists b, In b labels /\ num_labels < length b) ->
       adjusted_labels labels = raise ValueError)).
Proof.
  split.
  - intros b. split; [|apply adjust_overflows].
    intros H. exists (map IZR b ++ repeat 0%R (num_labels - length b)).
    split; [apply adjust_pads; exact H|]. split; [|split].
    + rewrite length_app, length_map, repeat_length. lia.
    + intros j Hj. rewrite app_nth1 by (rewrite length_map; exact Hj).
      change 0%R with (IZR 0). apply map_nth.
    + intros j Hj. rewrite app_nth2 by (rewrite length_map; lia).
      apply nth_repeat.
  - intros labels. rewrite adjusted_labels_rows. split.
    + intros Hall. apply collect_map. intros b Hb. apply adjust_pads, Hall, Hb.
    + intros (b & Hin & Hlong). apply collect_raises.
      * intros x e He. destruct (le_lt_dec (length x) num_labels) as [Hle|Hgt].
        -- rewrite adjust_pads in He by exact Hle. discriminate.
        -- rewrite adjust_overflows in He by exact Hgt. unfold raise in He. congruence.
      * exists b. split; [exact Hin | apply adjust_overflows; exact Hlong].
Qed.

(** A three-class row is padded; a thirty-class row raises. *)
Lemma adjust_zero_pads_witness :
  (exists v, adjust [0; 1; 0]%Z = ok v /\
             length v = num_labels /\
             (forall j, j < 3 -> nth j v 0%R = IZR (nth j [0; 1; 0]%Z 0%Z)) /\
             (forall j, 3 <= j < num_labels -> nth j v 0%R = 0%R)) /\
  adjust (repeat 1%Z 30) = raise ValueError /\
  adjusted_labels [[1; 0; 0]; [0; 0; 1]]%Z
  = ok (map (fun b => map IZR b ++ repeat 0%R (num_labels - length b))
            [[1; 0; 0]; [0; 0; 1]]%Z).
Proof.
  split; [|split].
  - apply (proj1 (proj1 adjust_zero_pads [0; 1; 0]%Z)). unfold num_labels. simpl. lia.
  - apply (proj2 (proj1 adjust_zero_pads (repeat 1%Z 30))). unfold num_labels. simpl. lia.
  - apply (proj1 (proj2 adjust_zero_pads [[1; 0; 0]; [0; 0; 1]]%Z)).
    unfold num_labels. simpl. intros b [<-|[<-|[]]]; simpl; lia.
Defined.

(** ** Width and meaning of label vectors *)

Lemma collect_Forall {A B : Type} (f : A -> res B) (P : B -> Prop) :
  (forall x y, f x = ok y -> P y) ->
  forall xs ys, collect f xs = ok ys -> Forall P ys.
Proof.
  intros HP. induction xs as [|x xs IH]; simpl; intros ys H.
  - unfold ok in H. assert (ys = []) by congruence. subst. constructor.
  - destruct (f x) as [e|y] eqn:Hf; simpl in H; [discriminate|].
    destruct (collect f xs) as [e|ys'] eqn:Hc; simpl in H; [discriminate|].
    unfold ok in H. assert (ys = y :: ys') by congruence. subst.
    constructor; [apply (HP x); exact Hf | apply IH; reflexivity].
Qed.

Lemma encode_length (l : Z) (v : list R) : encode l = ok v -> length v = num_labels.
Proof.
  destruct (Z_lt_le_dec l (-28)) as [H1|H1];
    [rewrite encode_raises by lia; discriminate|].
  destruct (Z_lt_le_dec l 0) as [H2|H2].
  - rewrite encode_wraps by lia. intros H.
    assert (v = one_hot (Z.to_nat (l + 28)) num_labels) by (unfold ok in H; congruence).
    subst. apply length_one_hot. unfold num_labels. lia.
  - destruct (Z_lt_le_dec l 28) as [H3|H3];
      [|rewrite encode_raises by lia; discriminate].
    rewrite encode_in_range by lia. intros H.
    assert (v = one_hot (Z.to_nat l) num_labels) by (unfold ok in H; congruence).
    subst. apply length_one_hot. unfold num_labels. lia.
Qed.

Lemma insert_unique_In (s x : string) :
  forall sorted, In x (Sk.insert_unique s sorted) <-> x = s \/ In x sorted.
Proof.
  induction sorted as [|c rest IH]; simpl.
  - intuition.
  - destruct (String.compare s c) eqn:Hc; simpl.
    + apply String.compare_eq_iff in Hc. subst. intuition.
    + intuition.
    + rewrite IH. intuition.
Qed.

Lemma classes_In (y : list string) (s : string) : In s y -> In s (Sk.classes y).
Proof.
  unfold Sk.classes. induction y as [|a y IH]; simpl; [contradiction|].
  intros [->|H]; apply insert_unique_In; auto.
Qed.

Lemma indicator_absent (s : string) :
  forall cls, ~ In s cls ->
    map (fun c => if String.eqb c s then 1%Z else 0%Z) cls = repeat 0%Z (length cls).
Proof.
  induction cls as [|a cls IH]; simpl; intros H; [reflexivity|].
  destruct (String.eqb_spec a s) as [->|Hne]; [exfalso; auto|].
  rewrite IH by auto. reflexivity.
Qed.

Lemma indicator_row (s : string) :
  forall cls j, NoDup cls -> nth_error cls j = Some s ->
    map (fun c => if String.eqb c s then 1%Z else 0%Z) cls
    = repeat 0%Z j ++ 1%Z :: repeat 0%Z (length cls - S j).
Proof.
  induction cls as [|a cls IH]; intros [|j] Hnd Hn; simpl in Hn; try discriminate;
    inversion Hnd as [|a' cls' Hnotin Hnd']; subst.
  - assert (a = s) by congruence. subst a.
    cbn [map repeat app length]. rewrite String.eqb_refl, indicator_absent by exact Hnotin.
    replace (S (length cls) - 1) with (length cls) by lia. reflexivity.
  - cbn [map repeat app length].
    destruct (String.eqb_spec a s) as [->|Hne].
    + exfalso. apply Hnotin. eapply nth_error_In. exact Hn.
    + rewrite (IH j Hnd' Hn).
      replace (S (length cls) - S (S j)) with (length cls - S j) by lia. reflexivity.
Qed.

Lemma adjust_indicator (j m : nat) :
  j < m -> m <= num_labels ->
  adjust (repeat 0%Z j ++ 1%Z :: repeat 0%Z (m - S j)) = ok (one_hot j num_labels).
Proof.
  intros Hj Hm.
  assert (Hlen : length (repeat 0%Z j ++ 1%Z :: repeat 0%Z (m - S j)) = m).
  { rewrite length_app. simpl. rewrite !repeat_length. lia. }
  rewrite adjust_pads by (rewrite Hlen; exact Hm).
  rewrite Hlen, map_app. cbn [map]. rewrite !map_repeat.
  unfold one_hot. rewrite <- app_assoc. cbn [app].
  rewrite <- repeat_app.
  replace (m - S j + (num_labels - m)) with (num_labels - S j) by lia.
  reflexivity.
Qed.

Lemma aligned_length (cls : list string) : aligned cls -> length cls <= num_labels.
Proof.
  intros Hal. destruct (le_lt_dec (length cls) num_labels) as [H|H]; [exact H|].
  destruct (nth_error cls num_labels) as [c|] eqn:Hc.
  - apply Hal in Hc. discriminate.
  - apply nth_error_None in Hc. lia.
Qed.

Lemma aligned_NoDup (cls : list string) : aligned cls -> NoDup cls.
Proof.
  intros Hal. apply NoDup_nth_error. intros i j Hi Heq.
  destruct (nth_error cls i) as [c|] eqn:Hc; [|apply nth_error_None in Hc; lia].
  symmetry in Heq. pose proof (Hal _ _ Hc) as H1. pose proof (Hal _ _ Heq) as H2.
  pose proof emotion_labels_NoDup as Hnd. rewrite NoDup_nth_error in Hnd.
  apply Hnd; [|congruence].
  apply nth_error_Some. congruence.
Qed.

Lemma binarize_aligned (cls : list string) (s : string) :
  3 <= length cls -> aligned cls -> In s cls ->
  exists v, adjust (Sk.binarize cls s) = ok v /\ decode v threshold = [s].
Proof.
  intros H3 Hal Hin.
  destruct (In_nth_error _ _ Hin) as [j Hj].
  assert (Hjlt : j < length cls) by (apply nth_error_Some; congruence).
  exists (one_hot j num_labels). split.
  - assert (Hb : Sk.binarize cls s
                 = map (fun c => if String.eqb c s then 1%Z else 0%Z) cls).
    { destruct cls as [|a [|b [|c cls']]]; simpl in H3; try lia. reflexivity. }
    rewrite Hb, (indicator_row s cls j (aligned_NoDup cls Hal) Hj).
    apply adjust_indicator; [exact Hjlt | apply aligned_length; exact Hal].
  - unfold decode. rewrite predicted_one_hot.
    + f_equal. apply nth_error_nth. apply Hal. exact Hj.
    + pose proof (aligned_length cls Hal). rewrite emotion_labels_length. lia.
Qed.

(** ** Dataset Adapter *)

Lemma binarize_length (cls : list string) (s : string) :
  length cls <= num_labels -> length (Sk.binarize cls s) <= num_labels.
Proof.
  intros H. destruct cls as [|a [|b [|c cls]]]; try (unfold num_labels; simpl; lia).
  unfold Sk.binarize. rewrite length_map. exact H.
Qed.

Lemma getitem_nth {A : Type} (xs : list A) (i : nat) (x : A) :
  nth_error xs i = Some x -> getitem xs i = ok x.
Proof. intros H. unfold getitem. rewrite H. reflexivity. Qed.

(** ** Text Encoder: padding at training time and at inference time *)

Section Padding.

Variable tok : Tokenizer.

Lemma encode_text_length (s : string) : length (encode_text tok 128 s) <= 128.
Proof.
  unfold encode_text. cbn [length]. rewrite length_app, length_firstn.
  cbn [length]. lia.
Qed.

Lemma longest_bounds (texts : list string) (i : nat) (s : string) :
  nth_error texts i = Some s ->
  length (encode_text tok 128 s)
  <= padded_width PadLongest 128 (map (encode_text tok 128) texts) <= 128.
Proof.
  intros Hi. unfold padded_width. split.
  - pose proof (proj1 (list_max_le (map (@length Z) (map (encode_text tok 128) texts)) _)
                      (Nat.le_refl _)) as Hall.
    rewrite Forall_forall in Hall. apply Hall.
    apply in_map, in_map. eapply nth_error_In. exact Hi.
  - apply list_max_le. apply Forall_forall. intros n Hn.
    apply in_map_iff in Hn. destruct Hn as (e & <- & He).
    apply in_map_iff in He. destruct He as (s' & <- & _).
    apply encode_text_length.
Qed.

Lemma pad_ids_split (ids : list Z) (w : nat) :
  length ids <= w <= 128 ->
  pad_ids tok 128 ids
  = pad_ids tok w ids ++ repeat (pad_token_id tok) (128 - length (pad_ids tok w ids)).
Proof.
  intros H. unfold pad_ids. rewrite length_app, repeat_length, <- app_assoc, <- repeat_app.
  do 2 f_equal. lia.
Qed.

Lemma pad_mask_split (ids : list Z) (w : nat) :
  length ids <= w <= 128 ->
  pad_mask 128 ids
  = pad_mask w ids ++ repeat 0%Z (128 - length (pad_mask w ids)).
Proof.
  intros H. unfold pad_mask. rewrite length_app, !repeat_length, <- app_assoc, <- repeat_app.
  do 2 f_equal. lia.
Qed.

End Padding.

Lemma tokenizer_ok (tok : Tokenizer) (texts : list string)
      (padding : padding_strategy) (max_length : nat) :
  texts <> [] ->
  tokenizer tok texts padding max_length = ok (encode_batch tok texts padding max_length).
Proof. destruct texts; [contradiction | reflexivity]. Qed.

Lemma tokenizer_inv (tok : Tokenizer) (texts : list string)
      (padding : padding_strategy) (max_length : nat) (enc : BatchEncoding) :
  tokenizer tok texts padding max_length = ok enc ->
  texts <> [] /\ enc = encode_batch tok texts padding max_length.
Proof.
  destruct texts as [|s rest]; [discriminate|].
  intros H. apply ok_inj in H. split; [discriminate | congruence].
Qed.

Lemma preprocess_function_inputs (tok : Tokenizer) (texts : list string)
      (label_column : list Z) (enc : BatchEncoding) :
  preprocess_function tok texts label_column = ok enc ->
  texts <> [] /\
  input_ids enc = input_ids (encode_batch tok texts PadMaxLength 128) /\
  attention_mask enc = attention_mask (encode_batch tok texts PadMaxLength 128).
Proof.
  unfold preprocess_function.
  destruct (tokenizer tok texts PadMaxLength 128) as [e|inputs] eqn:Htok;
    cbn [bind]; [discriminate|].
  destruct (tokenizer_inv _ _ _ _ _ Htok) as [Hne ->].
  destruct (preprocess_labels label_column) as [e|rows]; cbn [bind]; [discriminate|].
  intros H. apply ok_inj in H. subst enc. repeat split. exact Hne.
Qed.

(** C8, as stated, fails: on [custom_input] the inference-time encoding of
    the first text has 38 entries (the longest sequence of the batch), the
    encoding [preprocess_function] gives it has 128. *)
Lemma inference_encoding_is_shorter :
  exists enc inference e_inference e_training,
    preprocess_function char_tokenizer custom_input [1; 3; 4]%Z = ok enc /\
    tokenizer char_tokenizer custom_input PadLongest 128 = ok inference /\
    nth_error (input_ids enc) 0 = Some e_training /\
    nth_error (input_ids inference) 0 = Some e_inference /\
    length e_inference = 38 /\
    length e_training = 128 /\
    e_inference <> e_training.
Proof.
  eexists. eexists. eexists. eexists.
  split; [reflexivity|]. split; [reflexivity|]. split; [reflexivity|].
  split; [reflexivity|]. split; [reflexivity|]. split; [reflexivity|].
  intros H. apply (f_equal (@length Z)) in H. vm_compute in H. discriminate.
Qed.

(** C8, amended.  Inference uses the truncation and the maximal length (128)
    of [preprocess_function], but pads to the longest sequence of the batch
    where [preprocess_function] pads to the maximal length: the
    training-time encoding of a text is its inference-time encoding followed
    by padding up to 128 entries, and both start with the same truncated
    token sequence. *)
Theorem training_encoding_extends_inference_encoding
        (tok : Tokenizer) (texts : list string) (label_column : list Z)
        (enc : BatchEncoding) (i : nat) (s : string) :
  preprocess_function tok texts label_column = ok enc ->
  nth_error texts i = Some s ->
  exists inference ids am,
    tokenizer tok texts PadLongest 128 = ok inference /\
    nth_error (input_ids inference) i = Some ids /\
    nth_error (attention_mask inference) i = Some am /\
    firstn (length (encode_text tok 128 s)) ids = encode_text tok 128 s /\
    nth_error (input_ids enc) i
    = Some (ids ++ repeat (pad_token_id tok) (128 - length ids)) /\
    nth_error (attention_mask enc) i
    = Some (am ++ repeat 0%Z (128 - length am)).
Proof.
  intros Henc Hi.
  destruct (preprocess_function_inputs tok texts label_column enc Henc)
    as (Hne & -> & ->).
  pose proof (longest_bounds tok texts i s Hi) as Hw.
  set (w := padded_width PadLongest 128 (map (encode_text tok 128) texts)) in *.
  pose proof (map_nth_error (encode_text tok 128) _ _ Hi) as He.
  exists (encode_batch tok texts PadLongest 128),
         (pad_ids tok w (encode_text tok 128 s)), (pad_mask w (encode_text tok 128 s)).
  split; [apply tokenizer_ok; exact Hne|].
  unfold encode_batch. cbn [input_ids attention_mask padded_width]. fold w.
  split; [apply map_nth_error; exact He|].
  split; [apply map_nth_error; exact He|].
  split; [unfold pad_ids; apply firstn_length_app|].
  split.
  - rewrite <- (pad_ids_split tok _ w Hw). apply map_nth_error. exact He.
  - rewrite <- (pad_mask_split _ w Hw). apply map_nth_error. exact He.
Qed.

(** The third text of [custom_input], in a batch labelled 1, 3, 4. *)
Lemma training_encoding_extends_inference_encoding_witness :
  exists inference ids am,
    tokenizer char_tokenizer custom_input PadLongest 128 = ok inference /\
    nth_error (input_ids inference) 2 = Some ids /\
    nth_error (attention_mask inference) 2 = Some am /\
    firstn (length (encode_text char_tokenizer 128 "I'm confused about what to do next.")) ids
    = encode_text char_tokenizer 128 "I'm confused about what to do next." /\
    nth_error
      (input_ids
         (set_labels (encode_batch char_tokenizer custom_input PadMaxLength 128)
                     [one_hot 1 num_labels; one_hot 3 num_labels; one_hot 4 num_labels])) 2
    = Some (ids ++ repeat (pad_token_id char_tokenizer) (128 - length ids)) /\
    nth_error
      (attention_mask
         (set_labels (encode_batch char_tokenizer custom_input PadMaxLength 128)
                     [one_hot 1 num_labels; one_hot 3 num_labels; one_hot 4 num_labels])) 2
    = Some (am ++ repeat 0%Z (128 - length am)).
Proof.
  apply (training_encoding_extends_inference_encoding
           char_tokenizer custom_input [1; 3; 4]%Z).
  - reflexivity.
  - reflexivity.
Defined.

(** ** Inference Pipeline *)

Lemma nth_error_enumerate_from {A : Type} (xs : list A) :
  forall k i,
    nth_error (combine (seq k (length xs)) xs) i
    = option_map (fun x => (k + i, x)) (nth_error xs i).
Proof.
  induction xs as [|x xs IH]; intros k i.
  - destruct i; reflexivity.
  - destruct i as [|i]; cbn [length seq combine nth_error option_map].
    + rewrite Nat.add_0_r. reflexivity.
    + rewrite IH. destruct (nth_error xs i); [|reflexivity].
      cbn [option_map]. do 2 f_equal. lia.
Qed.

Lemma nth_error_enumerate {A : Type} (xs : list A) (i : nat) :
  nth_error (enumerate xs) i = option_map (fun x => (i, x)) (nth_error xs i).
Proof. unfold enumerate. apply nth_error_enumerate_from. Qed.

Lemma enumerate_In {A : Type} (xs : list A) (i : nat) (x : A) :
  In (i, x) (enumerate xs) -> nth_error xs i = Some x.
Proof.
  intros H. apply In_nth_error in H. destruct H as [n Hn].
  rewrite nth_error_enumerate in Hn.
  destruct (nth_error xs n) as [y|] eqn:Hy; [|discriminate].
  simpl in Hn. congruence.
Qed.

Lemma collect_In {A B : Type} (f : A -> res B) :
  forall xs ys y, collect f xs = ok ys -> In y ys ->
    exists x, In x xs /\ f x = ok y.
Proof.
  induction xs as [|x xs IH]; simpl; intros ys y H Hy.
  - unfold ok in H. assert (ys = []) by congruence. subst. contradiction.
  - destruct (f x) as [e|y0] eqn:Hf; simpl in H; [discriminate|].
    destruct (collect f xs) as [e|ys'] eqn:Hc; simpl in H; [discriminate|].
    unfold ok in H. assert (ys = y0 :: ys') by congruence. subst.
    destruct Hy as [<-|Hy]; [eauto|].
    destruct (IH ys' y eq_refl Hy) as (x' & Hx' & Hfx'). eauto.
Qed.

Lemma nth_error_combine_inv {A B : Type} :
  forall (l1 : list A) (l2 : list B) (j : nat) (a : A) (b : B),
    nth_error (combine l1 l2) j = Some (a, b) ->
    nth_error l1 j = Some a /\ nth_error l2 j = Some b.
Proof.
  induction l1 as [|x l1 IH]; intros [|y l2] [|j] a b H; simpl in H; try discriminate.
  - injection H as -> ->. split; reflexivity.
  - simpl. apply IH. exact H.
Qed.

Lemma sigmoid_range (x : R) : (0 <= sigmoid x <= 1)%R.
Proof.
  unfold sigmoid. pose proof (exp_pos (- x)) as He.
  split.
  - apply Rlt_le, Rdiv_lt_0_compat; lra.
  - unfold Rdiv. rewrite Rmult_1_l. rewrite <- Rinv_1 at 2.
    apply Rinv_le_contravar; lra.
Qed.

Lemma sigmoid_0 : sigmoid 0 = (1 / 2)%R.
Proof. unfold sigmoid. rewrite Ropp_0, exp_0. lra. Qed.

Lemma entry_to_probabilities (logits : Np.matrix) (i j : nat) :
  entry (to_probabilities logits) i j = option_map sigmoid (entry logits i j).
Proof.
  unfold entry, to_probabilities. rewrite nth_error_map.
  destruct (nth_error logits i) as [row|]; [|reflexivity].
  simpl. apply nth_error_map.
Qed.

Lemma collect_nth_inv {A B : Type} (f : A -> res B) (xs : list A) (ys : list B)
      (i : nat) (y : B) :
  collect f xs = ok ys -> nth_error ys i = Some y ->
  exists x, nth_error xs i = Some x /\ f x = ok y.
Proof.
  intros Hc Hy. destruct (collect_ok f xs ys Hc) as [Hlen Hnth].
  destruct (nth_error xs i) as [x|] eqn:Hx.
  - destruct (Hnth i x Hx) as (y' & Hy' & Hf). exists x. split; [reflexivity|].
    congruence.
  - apply nth_error_None in Hx.
    assert (i < length ys) by (apply nth_error_Some; congruence). lia.
Qed.

Section Inference.

Variable tok : Tokenizer.
Variable model : Model.
Variable texts : list string.
Variable t : R.

Local Abbreviation logits := (model (encode_batch tok texts PadLongest 128)).

Local Abbreviation block :=
  (fun '(i, txt) =>
     p <- getitem (to_probabilities logits) i ;;
     preds <- getitem (map (map (exceeds t)) (to_probabilities logits)) i ;;
     ok {| text := txt;
           probabilities := combine emotion_labels p;
           predicted_labels := predicted_emotions emotion_labels preds |}).

Lemma predict_unfold :
  texts <> [] -> predict tok model texts t = collect block (enumerate texts).
Proof.
  intros Hne. unfold predict. rewrite (tokenizer_ok tok texts _ _ Hne). reflexivity.
Qed.

Lemma predict_inv (results : list PredictionResult) :
  predict tok model texts t = ok results ->
  texts <> [] /\ collect block (enumerate texts) = ok results.
Proof.
  intros H. assert (Hne : texts <> []).
  { intros Hnil. unfold predict in H. rewrite Hnil in H. discriminate. }
  split; [exact Hne|]. rewrite <- (predict_unfold Hne). exact H.
Qed.

(** The block the display loops produce for position [i]. *)
Lemma predict_block (i : nat) (s : string) (row : list R) :
  nth_error logits i = Some row ->
  block (i, s)
  = ok {| text := s;
          probabilities := combine emotion_labels (map sigmoid row);
          predicted_labels := decode (map sigmoid row) t |}.
Proof.
  intros Hrow. unfold to_probabilities.
  rewrite (getitem_nth _ i _ (map_nth_error (map sigmoid) _ _ Hrow)), bind_ok.
  rewrite (getitem_nth _ i _
             (map_nth_error (map (exceeds t)) _ _
                (map_nth_error (map sigmoid) _ _ Hrow))), bind_ok.
  unfold decode. reflexivity.
Qed.

Lemma predict_block_inv (i : nat) (s : string) (r : PredictionResult) :
  block (i, s) = ok r ->
  exists row,
    nth_error logits i = Some row /\
    r = {| text := s;
           probabilities := combine emotion_labels (map sigmoid row);
           predicted_labels := decode (map sigmoid row) t |}.
Proof.
  intros H.
  destruct (nth_error logits i) as [row|] eqn:Hrow.
  - exists row. split; [reflexivity|].
    pose proof (predict_block i s row Hrow) as Hb.
    apply ok_inj. rewrite <- Hb. symmetry. exact H.
  - exfalso. cbv beta iota in H. unfold getitem at 1, to_probabilities at 1 in H.
    rewrite nth_error_map, Hrow in H. discriminate.
Qed.

Lemma predict_results :
  logits_shape model ->
  texts <> [] ->
  exists results,
    predict tok model texts t = ok results /\
    length results = length texts /\
    forall i s, nth_error texts i = Some s ->
      exists row,
        nth_error logits i = Some row /\
        length row = num_labels /\
        nth_error results i
        = Some {| text := s;
                  probabilities := combine emotion_labels (map sigmoid row);
                  predicted_labels := decode (map sigmoid row) t |}.
Proof.
  intros Hshape Hne.
  destruct (Hshape (encode_batch tok texts PadLongest 128)) as [Hlen Hwidth].
  assert (Hn : length logits = length texts).
  { rewrite Hlen. unfold encode_batch. cbn [input_ids]. rewrite !length_map. reflexivity. }
  assert (Hrow : forall i s, nth_error texts i = Some s ->
                   exists row, nth_error logits i = Some row /\ length row = num_labels).
  { intros i s Hi.
    destruct (nth_error logits i) as [row|] eqn:Hr.
    - exists row. split; [reflexivity|].
      rewrite Forall_forall in Hwidth. apply Hwidth. eapply nth_error_In. exact Hr.
    - apply nth_error_None in Hr.
      assert (i < length texts) by (apply nth_error_Some; congruence). lia. }
  rewrite (predict_unfold Hne).
  destruct (collect_total block (enumerate texts)) as [results Hres].
  { intros [i s] Hin. apply enumerate_In in Hin.
    destruct (Hrow i s Hin) as (row & Hr & _).
    rewrite (predict_block i s row Hr). eauto. }
  exists results. split; [exact Hres|].
  destruct (collect_ok block _ _ Hres) as [Hl Hnth]. split.
  - rewrite Hl. unfold enumerate. rewrite length_combine, length_seq. lia.
  - intros i s Hi. destruct (Hrow i s Hi) as (row & Hr & Hw).
    exists row. split; [exact Hr|]. split; [exact Hw|].
    destruct (Hnth i (i, s)) as (r & Hri & Hb).
    { rewrite nth_error_enumerate, Hi. reflexivity. }
    rewrite (predict_block i s row Hr) in Hb.
    apply ok_inj in Hb. congruence.
Qed.

(** Every result of a run that completes is the block of its own position. *)
Lemma predict_result_at (results : list PredictionResult) (i : nat)
      (r : PredictionResult) :
  predict tok model texts t = ok results ->
  nth_error results i = Some r ->
  exists s row,
    nth_error texts i = Some s /\
    nth_error logits i = Some row /\
    r = {| text := s;
           probabilities := combine emotion_labels (map sigmoid row);
           predicted_labels := decode (map sigmoid row) t |}.
Proof.
  intros Hres Hr. destruct (predict_inv results Hres) as [_ Hc].
  destruct (collect_nth_inv block _ _ i r Hc Hr) as ([i' s] & Hx & Hb).
  rewrite nth_error_enumerate in Hx.
  destruct (nth_error texts i) as [s'|] eqn:Hs; [|discriminate].
  cbn [option_map] in Hx. assert (i' = i /\ s = s') as [-> ->] by (split; congruence).
  destruct (predict_block_inv i s' r Hb) as (row & Hrow & ->).
  exists s', row. repeat split. exact Hrow.
Qed.

End Inference.

Lemma zero_model_shape : logits_shape zero_model.
Proof.
  intros enc. unfold zero_model. split; [apply length_map|].
  apply Forall_forall. intros row H. apply in_map_iff in H.
  destruct H as (ids & <- & _). apply repeat_length.
Qed.

(** ** Accuracy cell *)

Lemma argmax_from_spec :
  forall (rest : list R) (best : nat) (bv : R) (idx : nat),
  exists v,
    ((argmax_from best bv idx rest = best /\ v = bv) \/
     (exists j, argmax_from best bv idx rest = idx + j /\
                nth_error rest j = Some v /\ (bv < v)%R /\
                forall j' x, j' < j -> nth_error rest j' = Some x -> (x < v)%R)) /\
    (bv <= v)%R /\
    Forall (fun x => (x <= v)%R) rest.
Proof.
  induction rest as [|x rest IH]; intros best bv idx.
  - exists bv. split; [left; split; reflexivity|]. split; [lra | constructor].
  - cbn [argmax_from]. destruct (Rgt_dec x bv) as [Hgt|Hle].
    + destruct (IH idx x (S idx))
        as (v & [[Hk Hv] | (j & Hk & Hn & Hlt & Hbefore)] & Hxv & Hall).
      * exists v. subst v. split; [right; exists 0|].
        -- rewrite Hk. repeat split; [lia | exact Hgt | intros; lia].
        -- split; [lra | constructor; [lra | exact Hall]].
      * exists v. split; [right; exists (S j)|].
        -- rewrite Hk. split; [lia|]. split; [exact Hn|]. split; [lra|].
           intros [|j'] y Hj' Hy; simpl in Hy.
           ++ assert (y = x) by congruence. subst. exact Hlt.
           ++ apply (Hbefore j' y); [lia | exact Hy].
        -- split; [lra | constructor; [lra | exact Hall]].
    + apply Rnot_gt_le in Hle.
      destruct (IH best bv (S idx))
        as (v & [[Hk Hv] | (j & Hk & Hn & Hlt & Hbefore)] & Hxv & Hall).
      * exists v. split; [left; split; assumption|].
        split; [exact Hxv | constructor; [lra | exact Hall]].
      * exists v. split; [right; exists (S j)|].
        -- rewrite Hk. split; [lia|]. split; [exact Hn|]. split; [exact Hlt|].
           intros [|j'] y Hj' Hy; simpl in Hy.
           ++ assert (y = x) by congruence. subst. lra.
           ++ apply (Hbefore j' y); [lia | exact Hy].
        -- split; [exact Hxv | constructor; [lra | exact Hall]].
Qed.

(** [argmax] returns the position of the first maximal entry. *)
Lemma argmax_spec (row : list R) :
  row <> [] ->
  exists k,
    argmax row = ok k /\
    k < length row /\
    (forall j x, nth_error row j = Some x -> (x <= nth k row 0)%R) /\
    (forall j, j < k -> (nth j row 0 < nth k row 0)%R).
Proof.
  destruct row as [|x rest]; [contradiction|]. intros _.
  cbn [argmax].
  destruct (argmax_from_spec rest 0 x 1)
    as (v & [[Hk Hv] | (j & Hk & Hn & Hlt & Hbefore)] & Hxv & Hall).
  - exists 0. rewrite Hk. split; [reflexivity|]. split; [simpl; lia|]. split.
    + intros [|j] y Hy; simpl in Hy.
      * assert (y = x) by congruence. subst. simpl. lra.
      * rewrite Forall_forall in Hall. simpl. subst v.
        apply Hall. eapply nth_error_In. exact Hy.
    + intros j Hj. lia.
  - exists (S j). rewrite Hk. split; [reflexivity|].
    assert (Hjlt : j < length rest) by (apply nth_error_Some; congruence).
    split; [simpl; lia|].
    cbn [nth]. rewrite (nth_error_nth rest j 0%R Hn). split.
    + intros [|j'] y Hy; simpl in Hy.
      * assert (y = x) by congruence. subst. lra.
      * rewrite Forall_forall in Hall. apply Hall. eapply nth_error_In. exact Hy.
    + intros [|j'] Hj'; [exact Hlt|].
      apply (Hbefore j'); [lia|]. apply nth_error_nth'. lia.
Qed.

Lemma argmax_from_constant (v : R) :
  forall n best idx, argmax_from best v idx (repeat v n) = best.
Proof.
  induction n as [|n IH]; intros best idx; simpl; [reflexivity|].
  destruct (Rgt_dec v v); [lra | apply IH].
Qed.

(** * Further properties of the notebook's cells *)

(** ** Decoding *)

Lemma decode_In_iff (p : list R) (t : R) (c : string) :
  In c (decode p t) <->
  exists j x, index_of c emotion_labels = Some j /\
              nth_error p j = Some x /\ (x > t)%R.
Proof.
  unfold decode. rewrite (predicted_iff _ emotion_labels_NoDup). split.
  - intros (j & Hj & Hn). rewrite nth_error_map in Hn.
    destruct (nth_error p j) as [x|] eqn:Hx; [|discriminate].
    simpl in Hn. injection Hn as Hn. apply exceeds_1_iff in Hn.
    exists j, x. auto.
  - intros (j & x & Hj & Hx & Hgt). exists j. split; [exact Hj|].
    rewrite nth_error_map, Hx. simpl. f_equal. apply exceeds_1_iff. exact Hgt.
Qed.

Lemma predicted_firstn (names : list string) :
  forall preds,
    predicted_emotions names (firstn (length names) preds)
    = predicted_emotions names preds.
Proof.
  induction names as [|a names IH]; intros [|q preds]; try reflexivity.
  cbn [length firstn predicted_emotions]. rewrite IH. reflexivity.
Qed.

(** X1.  The zip with [emotion_labels] stops at the 28th label: whatever a
    probability vector holds past position 28 has no effect on the
    predicted emotions. *)
Theorem decode_reads_first_labels_only (p extra : list R) (t : R) :
  length p = num_labels ->
  decode (p ++ extra) t = decode p t.
Proof.
  intros Hp. unfold decode.
  rewrite <- (predicted_firstn emotion_labels (map (exceeds t) (p ++ extra))).
  rewrite map_app, emotion_labels_length, <- Hp.
  rewrite <- (length_map (exceeds t) p), firstn_length_app. reflexivity.
Qed.

(** Twenty-eight zeros followed by two large probabilities. *)
Lemma decode_reads_first_labels_only_witness :
  decode (repeat 0%R 28 ++ [1%R; 1%R]) threshold = decode (repeat 0%R 28) threshold.
Proof.
  apply (decode_reads_first_labels_only (repeat 0%R 28) [1%R; 1%R] threshold).
  reflexivity.
Defined.

(** X2.  Raising the threshold can only remove predictions: a category
    predicted at a threshold is predicted at every lower threshold. *)
Theorem decode_antitone_in_threshold (p : list R) (t t' : R) (c : string) :
  (t <= t')%R -> In c (decode p t') -> In c (decode p t).
Proof.
  intros Ht Hin. apply decode_In_iff in Hin. destruct Hin as (j & x & Hj & Hx & Hgt).
  apply decode_In_iff. exists j, x. repeat split; try assumption. lra.
Qed.

(** A probability of 1 for admiration, at the thresholds 0 and 0.5. *)
Lemma decode_antitone_in_threshold_witness :
  In "admiration"%string (decode [1%R] 0%R).
Proof.
  apply (decode_antitone_in_threshold [1%R] 0%R threshold "admiration"%string).
  - unfold threshold. lra.
  - apply decode_In_iff. exists 0, 1%R.
    split; [reflexivity|]. split; [reflexivity|]. unfold threshold. lra.
Defined.

Lemma StronglySorted_weaken {A : Type} (R1 R2 : A -> A -> Prop) (l : list A) :
  (forall x y, In x l -> In y l -> R1 x y -> R2 x y) ->
  StronglySorted R1 l -> StronglySorted R2 l.
Proof.
  intros Hw Hs. induction Hs as [|a l Hs IH Hall]; constructor.
  - apply IH. intros x y Hx Hy. apply Hw; right; assumption.
  - rewrite Forall_forall in *. intros y Hy.
    apply Hw; [left; reflexivity | right; exact Hy | apply Hall; exact Hy].
Qed.

Lemma index_of_tail (a c : string) (names : list string) (i : nat) :
  a <> c -> index_of c names = Some i -> index_of c (a :: names) = Some (S i).
Proof.
  intros Hne Hi. cbn [index_of].
  destruct (String.eqb_spec a c) as [->|_]; [contradiction|].
  rewrite Hi. reflexivity.
Qed.

Lemma index_of_In (c : string) (names : list string) :
  In c names -> exists i, index_of c names = Some i.
Proof.
  induction names as [|a names IH]; [contradiction|]. intros Hin.
  cbn [index_of]. destruct (String.eqb_spec a c) as [->|Hne]; [eauto|].
  destruct Hin as [Heq|Hin]; [contradiction|].
  destruct (IH Hin) as [i ->]. simpl. eauto.
Qed.

Lemma predicted_sorted (names : list string) :
  NoDup names ->
  forall preds,
    StronglySorted
      (fun a b => exists i j,
           index_of a names = Some i /\ index_of b names = Some j /\ i < j)
      (predicted_emotions names preds).
Proof.
  induction names as [|a names IH]; intros Hnd preds; [constructor|].
  inversion Hnd as [|a' names' Hnotin Hnd']; subst.
  destruct preds as [|q preds]; [constructor|].
  assert (Hrest :
    StronglySorted
      (fun x y => exists i j,
           index_of x (a :: names) = Some i /\
           index_of y (a :: names) = Some j /\ i < j)
      (predicted_emotions names preds)).
  { apply StronglySorted_weaken with (2 := IH Hnd' preds).
    intros x y Hx Hy (i & j & Hi & Hj & Hlt).
    apply predicted_subset in Hx. apply predicted_subset in Hy.
    exists (S i), (S j). repeat split.
    - apply index_of_tail; [intros ->; contradiction | exact Hi].
    - apply index_of_tail; [intros ->; contradiction | exact Hj].
    - lia. }
  cbn [predicted_emotions]. destruct (q =? 1)%Z; [|exact Hrest].
  constructor; [exact Hrest|].
  apply Forall_forall. intros y Hy. apply predicted_subset in Hy.
  destruct (index_of_In y names Hy) as [j Hj].
  exists 0, (S j). repeat split.
  - cbn [index_of]. rewrite String.eqb_refl. reflexivity.
  - apply index_of_tail; [intros ->; contradiction | exact Hj].
  - lia.
Qed.

Lemma predicted_NoDup (names : list string) :
  NoDup names -> forall preds, NoDup (predicted_emotions names preds).
Proof.
  induction names as [|a names IH]; intros Hnd preds; [constructor|].
  inversion Hnd as [|a' names' Hnotin Hnd']; subst.
  destruct preds as [|q preds]; [constructor|].
  cbn [predicted_emotions]. destruct (q =? 1)%Z; [|apply IH; exact Hnd'].
  constructor; [|apply IH; exact Hnd'].
  intros Hin. apply predicted_subset in Hin. contradiction.
Qed.

(** X3.  The predicted emotions are Label Space categories, none listed
    twice, and they appear in Label Space order. *)
Theorem decode_keeps_label_space_order (p : list R) (t : R) :
  incl (decode p t) emotion_labels /\
  NoDup (decode p t) /\
  StronglySorted before (decode p t).
Proof.
  unfold decode. split; [|split].
  - intros c Hc. eapply predicted_subset. exact Hc.
  - apply predicted_NoDup, emotion_labels_NoDup.
  - apply (predicted_sorted emotion_labels emotion_labels_NoDup).
Qed.

(** ** Sigmoid, threshold and argmax *)

Lemma sigmoid_increasing (x y : R) : (x < y)%R -> (sigmoid x < sigmoid y)%R.
Proof.
  intros H. unfold sigmoid, Rdiv. rewrite !Rmult_1_l.
  pose proof (exp_pos (- x)) as Hx. pose proof (exp_pos (- y)) as Hy.
  assert (exp (- y) < exp (- x))%R by (apply exp_increasing; lra).
  apply Rinv_lt_contravar; [|lra].
  apply Rmult_lt_0_compat; lra.
Qed.

Lemma sigmoid_monotone (x y : R) : (x <= y)%R -> (sigmoid x <= sigmoid y)%R.
Proof.
  intros [H| ->]; [left; apply sigmoid_increasing; exact H | right; reflexivity].
Qed.

Lemma sigmoid_nonpositive (x : R) : (x <= 0)%R -> (sigmoid x <= threshold)%R.
Proof.
  intros H. apply sigmoid_monotone in H. rewrite sigmoid_0 in H.
  unfold threshold. lra.
Qed.

(** X4.  At the default threshold 0.5 only categories with a positive logit
    are predicted: a logit of 0 gives the probability 0.5, which is not
    strictly above the threshold, and smaller logits give no more. *)
Theorem default_threshold_needs_positive_logit (row : list R) (c : string) :
  In c (decode (map sigmoid row) threshold) ->
  exists j x, index_of c emotion_labels = Some j /\
              nth_error row j = Some x /\ (x > 0)%R.
Proof.
  rewrite decode_In_iff.
  intros (j & p & Hj & Hp & Hgt). rewrite nth_error_map in Hp.
  destruct (nth_error row j) as [x|] eqn:Hx; [|discriminate].
  cbn [option_map] in Hp. assert (p = sigmoid x) by congruence. subst p.
  exists j, x. repeat split; try assumption.
  destruct (Rlt_le_dec 0 x) as [Hpos|Hle]; [exact Hpos|].
  pose proof (sigmoid_nonpositive x Hle). lra.
Qed.

Lemma default_threshold_row_example :
  In "admiration"%string (decode (map sigmoid [1%R; 2%R]) threshold).
Proof.
  apply decode_In_iff. exists 0, (sigmoid 1).
  split; [reflexivity|]. split; [reflexivity|].
  assert (H : (0 < 1)%R) by lra.
  apply sigmoid_increasing in H. rewrite sigmoid_0 in H. unfold threshold. lra.
Qed.

(** Logits 1 and 2: admiration is predicted, and its logit is positive. *)
Lemma default_threshold_needs_positive_logit_witness :
  exists j x, index_of "admiration"%string emotion_labels = Some j /\
              nth_error [1%R; 2%R] j = Some x /\ (x > 0)%R.
Proof.
  apply (default_threshold_needs_positive_logit [1%R; 2%R] "admiration"%string).
  apply default_threshold_row_example.
Defined.

Lemma index_of_nth_error (names : list string) :
  NoDup names ->
  forall j c, nth_error names j = Some c -> index_of c names = Some j.
Proof.
  induction names as [|a names IH]; intros Hnd [|j] c Hj; simpl in Hj; try discriminate.
  - assert (a = c) by congruence. subst. cbn [index_of].
    rewrite String.eqb_refl. reflexivity.
  - inversion Hnd as [|a' names' Hnotin Hnd']; subst.
    apply index_of_tail; [|apply IH; assumption].
    intros ->. apply Hnotin. eapply nth_error_In. exact Hj.
Qed.

Lemma index_of_lt (names : list string) :
  forall c j, index_of c names = Some j -> j < length names.
Proof.
  induction names as [|a names IH]; intros c j Hj; simpl in Hj; [discriminate|].
  destruct (String.eqb a c).
  - assert (j = 0) by congruence. subst. simpl. lia.
  - destruct (index_of c names) as [i|] eqn:Hi; [|discriminate].
    simpl in Hj. assert (j = S i) by congruence. subst. simpl.
    specialize (IH c i Hi). lia.
Qed.

(** X6.  Whenever the thresholded decoding of a row of at most 28 logits
    predicts anything, it predicts the category the accuracy cell picks for
    that row. *)
Theorem argmax_category_is_predicted
        (row : list R) (k : nat) (t : R) (c : string) :
  length row <= num_labels ->
  argmax row = ok k ->
  In c (decode (map sigmoid row) t) ->
  In (nth k emotion_labels EmptyString) (decode (map sigmoid row) t).
Proof.
  intros Hlen Hk Hc.
  assert (Hne : row <> []) by (intros ->; discriminate).
  destruct (argmax_spec row Hne) as (k' & Hk' & Hlt & Hmax & _).
  assert (k' = k) by (apply ok_inj; congruence). subst k'.
  apply decode_In_iff in Hc. destruct Hc as (j & p & Hj & Hp & Hgt).
  rewrite nth_error_map in Hp.
  destruct (nth_error row j) as [x|] eqn:Hx; [|discriminate].
  cbn [option_map] in Hp. assert (p = sigmoid x) by congruence. subst p.
  apply decode_In_iff.
  assert (Hkn : k < length emotion_labels) by (rewrite emotion_labels_length; lia).
  exists k, (sigmoid (nth k row 0%R)). split; [|split].
  - apply (index_of_nth_error _ emotion_labels_NoDup). apply nth_error_nth'. exact Hkn.
  - rewrite nth_error_map, (nth_error_nth' row 0%R Hlt). reflexivity.
  - specialize (Hmax j x Hx). destruct Hmax as [Hlt'|Heq].
    + pose proof (sigmoid_increasing _ _ Hlt'). lra.
    + rewrite <- Heq. exact Hgt.
Qed.

(** Two positive logits, the second the larger: admiration is predicted,
    hence so is amusement, the argmax. *)
Lemma argmax_category_is_predicted_witness :
  In "amusement"%string (decode (map sigmoid [1%R; 2%R]) threshold).
Proof.
  apply (argmax_category_is_predicted [1%R; 2%R] 1 threshold "admiration"%string).
  - unfold num_labels. simpl. lia.
  - unfold argmax, argmax_from. destruct (Rgt_dec 2 1); [reflexivity | lra].
  - apply default_threshold_row_example.
Defined.

Lemma predicted_none (names : list string) (t : R) :
  forall ps, Forall (fun x => (x <= t)%R) ps ->
    predicted_emotions names (map (exceeds t) ps) = [].
Proof.
  induction names as [|a names IH]; intros [|x ps] H; try reflexivity.
  inversion H as [|x' ps' Hx Hps]; subst.
  cbn [map predicted_emotions]. unfold exceeds at 1.
  destruct (Rgt_dec x t); [lra|]. cbn [Z.eqb]. apply IH. exact Hps.
Qed.

Lemma predicted_all (names : list string) (t : R) :
  forall ps, Forall (fun x => (x > t)%R) ps -> length ps = length names ->
    predicted_emotions names (map (exceeds t) ps) = names.
Proof.
  induction names as [|a names IH]; intros [|x ps] H Hlen; try reflexivity;
    try discriminate.
  inversion H as [|x' ps' Hx Hps]; subst.
  cbn [map predicted_emotions]. unfold exceeds at 1.
  destruct (Rgt_dec x t); [|contradiction]. cbn [Z.eqb].
  rewrite IH; [reflexivity | exact Hps | simpl in Hlen; lia].
Qed.

(** X7.  Sigmoid probabilities lie between 0 and 1, so a threshold of 1 or
    more never predicts anything, and a negative threshold predicts every
    one of the 28 categories. *)
Theorem threshold_extremes (row : list R) (t : R) :
  ((1 <= t)%R -> decode (map sigmoid row) t = []) /\
  ((t < 0)%R -> length row = num_labels ->
   decode (map sigmoid row) t = emotion_labels).
Proof.
  split; intros Ht.
  - unfold decode. apply predicted_none. apply Forall_forall.
    intros p Hp. apply in_map_iff in Hp. destruct Hp as (x & <- & _).
    pose proof (sigmoid_range x). lra.
  - intros Hlen. unfold decode. apply predicted_all.
    + apply Forall_forall. intros p Hp. apply in_map_iff in Hp.
      destruct Hp as (x & <- & _). pose proof (sigmoid_range x). lra.
    + rewrite length_map, emotion_labels_length. exact Hlen.
Qed.

(** Twenty-eight logits of 3 at the thresholds 1 and -1. *)
Lemma threshold_extremes_witness :
  decode (map sigmoid (repeat 3%R 28)) 1%R = [] /\
  decode (map sigmoid (repeat 3%R 28)) (-1)%R = emotion_labels.
Proof.
  split.
  - apply (proj1 (threshold_extremes (repeat 3%R 28) 1%R)). lra.
  - apply (proj2 (threshold_extremes (repeat 3%R 28) (-1)%R)); [lra | reflexivity].
Defined.

(** ** Accuracy *)

Lemma count_matches_le (ps : list nat) :
  forall rs, count_matches ps rs <= length rs.
Proof.
  induction ps as [|p ps IH]; intros [|r rs]; simpl; try lia.
  specialize (IH rs). destruct (Z.of_nat p =? r)%Z; lia.
Qed.

Lemma count_matches_all (ps : list nat) :
  forall rs, length ps = length rs ->
    (count_matches ps rs = length rs <-> map Z.of_nat ps = rs).
Proof.
  induction ps as [|p ps IH]; intros [|r rs] Hlen; simpl in Hlen; try discriminate.
  - simpl. tauto.
  - cbn [count_matches length map].
    pose proof (count_matches_le ps rs) as Hle.
    specialize (IH rs ltac:(lia)).
    destruct (Z.eqb_spec (Z.of_nat p) r) as [Heq|Hne].
    + split.
      * intros H. f_equal; [exact Heq | apply IH; lia].
      * intros H. injection H as _ H. apply IH in H. lia.
    + split.
      * intros H. lia.
      * intros H. injection H as H _. contradiction.
Qed.

(** X8.  The accuracy the metric reports for a non-empty batch is a number
    between 0 and 1, and it is 1 exactly when every prediction equals its
    reference label. *)
Theorem accuracy_is_a_fraction (predictions : list nat) (references : list Z) (a : R) :
  references <> [] ->
  accuracy predictions references = ok a ->
  (0 <= a <= 1)%R /\ (a = 1%R <-> map Z.of_nat predictions = references).
Proof.
  intros Hne Ha. unfold accuracy in Ha.
  destruct (Nat.eqb_spec (length predictions) (length references)) as [Hlen|];
    [|discriminate].
  destruct (forallb int32 references); [|discriminate].
  cbn [andb] in Ha. apply ok_inj in Ha. subst a.
  assert (Hn : (0 < INR (length references))%R).
  { apply lt_0_INR. destruct references; [contradiction | simpl; lia]. }
  pose proof (count_matches_le predictions references) as Hle.
  apply le_INR in Hle.
  pose proof (pos_INR (count_matches predictions references)) as Hpos.
  split; [split|].
  - apply Rmult_le_pos; [exact Hpos | apply Rlt_le, Rinv_0_lt_compat; exact Hn].
  - apply (Rmult_le_reg_r (INR (length references))); [exact Hn|].
    unfold Rdiv. rewrite Rmult_assoc, Rinv_l by lra. lra.
  - rewrite <- (count_matches_all predictions references Hlen). split.
    + intros H. apply INR_eq.
      apply (Rmult_eq_compat_r (INR (length references))) in H.
      unfold Rdiv in H. rewrite Rmult_assoc, Rinv_l in H by lra. lra.
    + intros ->. unfold Rdiv. apply Rinv_r. lra.
Qed.

(** Two predictions against two references, one of them matching. *)
Lemma accuracy_is_a_fraction_witness :
  (0 <= INR (count_matches [0%nat; 5%nat] [0%Z; 3%Z])
        / INR (length [0%Z; 3%Z]) <= 1)%R /\
  ((INR (count_matches [0%nat; 5%nat] [0%Z; 3%Z])
    / INR (length [0%Z; 3%Z]))%R = 1%R <->
   map Z.of_nat [0%nat; 5%nat] = [0%Z; 3%Z]).
Proof.
  apply (accuracy_is_a_fraction [0%nat; 5%nat] [0%Z; 3%Z]).
  - discriminate.
  - reflexivity.
Defined.

(** ** Inference cell: the two display loops *)

Lemma map_fst_combine {A B : Type} :
  forall (l1 : list A) (l2 : list B),
    map fst (combine l1 l2) = firstn (length l2) l1.
Proof.
  induction l1 as [|a l1 IH]; intros [|b l2]; try reflexivity.
  cbn [combine map fst length firstn]. rewrite IH. reflexivity.
Qed.

Lemma map_snd_combine {A B : Type} :
  forall (l1 : list A) (l2 : list B),
    map snd (combine l1 l2) = firstn (length l1) l2.
Proof.
  induction l1 as [|a l1 IH]; intros [|b l2]; try reflexivity.
  cbn [combine map snd length firstn]. rewrite IH. reflexivity.
Qed.

Lemma firstn_min_length {A : Type} (l : list A) (n : nat) :
  firstn (Nat.min (length l) n) l = firstn n l.
Proof.
  destruct (le_lt_dec n (length l)) as [H|H].
  - rewrite Nat.min_r by exact H. reflexivity.
  - rewrite Nat.min_l by lia. rewrite firstn_all, firstn_all2 by lia. reflexivity.
Qed.

Lemma getitem_map_inv {A B : Type} (f : A -> B) (xs : list A) (i : nat) (y : B) :
  getitem (map f xs) i = ok y -> exists x, nth_error xs i = Some x /\ y = f x.
Proof.
  unfold getitem. rewrite nth_error_map.
  destruct (nth_error xs i) as [x|]; cbn [option_map]; [|discriminate].
  intros H. apply ok_inj in H. eauto.
Qed.

(** X10.  In every result of [predict], the text is one of the inputs, the
    probabilities are labelled with the Label Space categories in order, and
    the predicted emotions shown by the second loop are the decoding, at the
    same threshold, of the probabilities shown by the first. *)
Theorem predict_blocks_agree
        (tok : Tokenizer) (model : Model) (texts : list string) (t : R)
        (results : list PredictionResult) (r : PredictionResult) :
  predict tok model texts t = ok results ->
  In r results ->
  In (text r) texts /\
  map fst (probabilities r) = firstn (length (probabilities r)) emotion_labels /\
  predicted_labels r = decode (map snd (probabilities r)) t.
Proof.
  intros Hres Hr. apply In_nth_error in Hr. destruct Hr as [i Hi].
  destruct (predict_result_at tok model texts t results i r Hres Hi)
    as (s & row & Hs & _ & ->).
  cbn [text probabilities predicted_labels].
  split; [eapply nth_error_In; exact Hs|]. split.
  - rewrite map_fst_combine, length_combine, firstn_min_length. reflexivity.
  - rewrite map_snd_combine. unfold decode.
    rewrite <- firstn_map, predicted_firstn. reflexivity.
Qed.

(** The first block of [custom_input] through the concrete collaborators. *)
Lemma predict_blocks_agree_witness :
  exists results r,
    predict char_tokenizer zero_model custom_input threshold = ok results /\
    In r results /\
    In (text r) custom_input /\
    map fst (probabilities r) = firstn (length (probabilities r)) emotion_labels /\
    predicted_labels r = decode (map snd (probabilities r)) threshold.
Proof.
  destruct (predict_results char_tokenizer zero_model custom_input threshold
              zero_model_shape ltac:(discriminate)) as (results & Hres & _ & Hnth).
  destruct (Hnth 0 _ eq_refl) as (row & _ & _ & Hr).
  apply nth_error_In in Hr.
  eexists. eexists. split; [exact Hres|]. split; [exact Hr|].
  apply (predict_blocks_agree char_tokenizer zero_model custom_input threshold
           results _ Hres Hr).
Defined.

(** ** Primary dataset *)

Lemma encode_cases (l : Z) (v : list R) :
  encode l = ok v ->
  (-28 <= l < 28)%Z /\ v = one_hot (Z.to_nat (l mod 28)) num_labels.
Proof.
  intros H.
  destruct (Z_lt_le_dec l (-28)) as [H1|H1];
    [rewrite encode_raises in H by lia; discriminate|].
  destruct (Z_lt_le_dec l 28) as [H2|H2];
    [|rewrite encode_raises in H by lia; discriminate].
  split; [lia|].
  destruct (Z_lt_le_dec l 0) as [H3|H3].
  - rewrite encode_wraps in H by lia. apply ok_inj in H. subst v.
    do 2 f_equal. apply Z.mod_unique with (q := (-1)%Z); lia.
  - rewrite encode_in_range in H by lia. apply ok_inj in H. subst v.
    do 2 f_equal. symmetry. apply Z.mod_small. lia.
Qed.

(** X12.  Every label the encoder accepts, negative ones included, decodes
    at the default threshold to exactly one category: the one at position
    [l mod 28] of the Label Space. *)
Theorem accepted_label_round_trip (l : Z) (v : list R) :
  encode l = ok v ->
  decode v threshold = [nth (Z.to_nat (l mod 28)) emotion_labels EmptyString].
Proof.
  intros H. destruct (encode_cases l v H) as [Hl ->].
  unfold decode. apply predicted_one_hot.
  rewrite emotion_labels_length. unfold num_labels.
  pose proof (Z.mod_pos_bound l 28 ltac:(lia)). lia.
Qed.

(** The label -1 lands on the last category. *)
Lemma accepted_label_round_trip_witness :
  decode (one_hot 27 num_labels) threshold = ["neutral"%string].
Proof.
  apply (accepted_label_round_trip (-1)%Z (one_hot 27 num_labels)).
  reflexivity.
Defined.

Lemma padded_to_max_length (tok : Tokenizer) (s : string) :
  length (pad_ids tok 128 (encode_text tok 128 s)) = 128 /\
  length (pad_mask 128 (encode_text tok 128 s)) = 128.
Proof.
  pose proof (encode_text_length tok s) as H.
  unfold pad_ids, pad_mask. rewrite !length_app, !repeat_length. lia.
Qed.

(** X13.  Whenever [preprocess_function] succeeds, its batch has one row of
    token ids and one attention mask per text, each of exactly 128 entries,
    and one label row per raw label, each a one-hot vector of width 28 (a
    single 1 at an index below 28, 0 elsewhere). *)
Theorem preprocess_function_shapes
        (tok : Tokenizer) (examples_text : list string) (examples_label : list Z)
        (enc : BatchEncoding) :
  preprocess_function tok examples_text examples_label = ok enc ->
  length (input_ids enc) = length examples_text /\
  length (attention_mask enc) = length examples_text /\
  Forall (fun ids => length ids = 128) (input_ids enc) /\
  Forall (fun am => length am = 128) (attention_mask enc) /\
  exists rows,
    labels enc = Some rows /\
    length rows = length examples_label /\
    Forall (fun v => exists j, j < num_labels /\ is_one_hot v j) rows.
Proof.
  intros H.
  destruct (preprocess_function_inputs tok examples_text examples_label enc H)
    as (Hne & Hids & Hmask).
  unfold preprocess_function in H. rewrite (tokenizer_ok _ _ _ _ Hne), bind_ok in H.
  destruct (preprocess_labels examples_label) as [e|rows] eqn:Hrows;
    cbn [bind] in H; [discriminate|].
  apply ok_inj in H. rewrite Hids, Hmask.
  unfold encode_batch. cbn [input_ids attention_mask padded_width].
  rewrite !length_map.
  split; [reflexivity|]. split; [reflexivity|]. split; [|split].
  - apply Forall_forall. intros ids Hin. apply in_map_iff in Hin.
    destruct Hin as (e & <- & He). apply in_map_iff in He. destruct He as (s & <- & _).
    apply padded_to_max_length.
  - apply Forall_forall. intros am Hin. apply in_map_iff in Hin.
    destruct Hin as (e & <- & He). apply in_map_iff in He. destruct He as (s & <- & _).
    apply padded_to_max_length.
  - exists rows. split; [subst enc; reflexivity|].
    rewrite preprocess_labels_rows in Hrows.
    split; [apply (collect_ok encode _ _ Hrows)|].
    apply (collect_Forall encode _) with (xs := examples_label); [|exact Hrows].
    intros l v Hv. destruct (encode_cases l v Hv) as [Hl ->].
    assert (Hj : Z.to_nat (l mod 28) < num_labels).
    { unfold num_labels. pose proof (Z.mod_pos_bound l 28 ltac:(lia)). lia. }
    exists (Z.to_nat (l mod 28)). split; [exact Hj|].
    apply one_hot_is_one_hot. exact Hj.
Qed.

(** [custom_input] with the raw labels 1, 3 and 4. *)
Lemma preprocess_function_shapes_witness :
  exists enc,
    preprocess_function char_tokenizer custom_input [1; 3; 4]%Z = ok enc /\
    length (input_ids enc) = length custom_input /\
    length (attention_mask enc) = length custom_input /\
    Forall (fun ids => length ids = 128) (input_ids enc) /\
    Forall (fun am => length am = 128) (attention_mask enc) /\
    exists rows,
      labels enc = Some rows /\
      length rows = length [1; 3; 4]%Z /\
      Forall (fun v => exists j, j < num_labels /\ is_one_hot v j) rows.
Proof.
  eexists. split; [reflexivity|].
  apply (preprocess_function_shapes char_tokenizer custom_input [1; 3; 4]%Z).
  reflexivity.
Defined.

(** ** Secondary dataset: vocabulary *)

Lemma string_compare_refl (s : string) : String.compare s s = Eq.
Proof.
  pose proof (String.compare_antisym s s) as H.
  destruct (String.compare s s); simpl in H; [reflexivity | discriminate | discriminate].
Qed.

Lemma string_lt_trans (a b c : string) :
  String.compare a b = Lt -> String.compare b c = Lt -> String.compare a c = Lt.
Proof.
  intros H1 H2.
  apply OrderedTypeEx.String_as_OT.cmp_lt in H1.
  apply OrderedTypeEx.String_as_OT.cmp_lt in H2.
  apply OrderedTypeEx.String_as_OT.cmp_lt.
  eapply OrderedTypeEx.String_as_OT.lt_trans; eassumption.
Qed.

Lemma insert_unique_sorted (s : string) :
  forall sorted,
    StronglySorted (fun a b => String.compare a b = Lt) sorted ->
    StronglySorted (fun a b => String.compare a b = Lt) (Sk.insert_unique s sorted).
Proof.
  induction sorted as [|c rest IH]; intros Hs.
  - simpl. constructor; constructor.
  - inversion Hs as [|c' rest' Hrest Hall]; subst.
    cbn [Sk.insert_unique]. destruct (String.compare s c) eqn:Hc.
    + exact Hs.
    + constructor; [exact Hs|]. constructor; [exact Hc|].
      rewrite Forall_forall in *. intros y Hy.
      apply string_lt_trans with (b := c); [exact Hc | apply Hall; exact Hy].
    + constructor; [apply IH; exact Hrest|].
      rewrite Forall_forall in *. intros y Hy.
      apply insert_unique_In in Hy. destruct Hy as [->|Hy]; [|apply Hall; exact Hy].
      rewrite String.compare_antisym, Hc. reflexivity.
Qed.

Lemma classes_sorted (y : list string) :
  StronglySorted (fun a b => String.compare a b = Lt) (Sk.classes y).
Proof.
  unfold Sk.classes. induction y as [|a y IH]; simpl; [constructor|].
  apply insert_unique_sorted. exact IH.
Qed.

Lemma classes_NoDup (y : list string) : NoDup (Sk.classes y).
Proof.
  pose proof (classes_sorted y) as Hs.
  induction Hs as [|a l Hs IH Hall]; constructor; [|exact IH].
  intros Hin. rewrite Forall_forall in Hall. specialize (Hall a Hin).
  rewrite string_compare_refl in Hall. discriminate.
Qed.

Lemma classes_In_iff (y : list string) (s : string) :
  In s (Sk.classes y) <-> In s y.
Proof.
  split; [|apply classes_In].
  unfold Sk.classes. induction y as [|a y IH]; simpl; [tauto|].
  intros H. apply insert_unique_In in H. destruct H as [->|H]; auto.
Qed.

Lemma classes_single (s : string) :
  forall y, y <> [] -> (forall x, In x y -> x = s) -> Sk.classes y = [s].
Proof.
  induction y as [|a y IH]; intros Hne Hall; [contradiction|].
  assert (a = s) by (apply Hall; left; reflexivity). subst a.
  unfold Sk.classes. cbn [fold_right]. fold (Sk.classes y).
  destruct y as [|b y]; [reflexivity|].
  rewrite IH; [|discriminate | intros x Hx; apply Hall; right; exact Hx].
  cbn [Sk.insert_unique]. rewrite string_compare_refl. reflexivity.
Qed.

Lemma binarize_binary (cls : list string) (s : string) :
  Forall (fun z => z = 0%Z \/ z = 1%Z) (Sk.binarize cls s).
Proof.
  assert (Hmap : forall l,
             Forall (fun z => z = 0%Z \/ z = 1%Z)
                    (map (fun c => if String.eqb c s then 1%Z else 0%Z) l)).
  { intros l. apply Forall_forall. intros z Hz. apply in_map_iff in Hz.
    destruct Hz as (c & <- & _). destruct (String.eqb c s); auto. }
  destruct cls as [|a [|b [|c cls]]].
  - constructor.
  - constructor; [left; reflexivity | constructor].
  - constructor; [destruct (String.eqb s b); auto | constructor].
  - apply Hmap.
Qed.

Lemma binarize_wide (cls : list string) (s : string) :
  3 <= length cls ->
  Sk.binarize cls s = map (fun c => if String.eqb c s then 1%Z else 0%Z) cls.
Proof.
  intros H. destruct cls as [|a [|b [|c cls]]]; simpl in H; try lia. reflexivity.
Qed.

Lemma collect_Forall_In {A B : Type} (f : A -> res B) (P : B -> Prop) :
  forall xs ys, collect f xs = ok ys ->
    (forall x y, In x xs -> f x = ok y -> P y) -> Forall P ys.
Proof.
  induction xs as [|x xs IH]; simpl; intros ys H HP.
  - apply ok_inj in H. subst. constructor.
  - destruct (f x) as [e|y] eqn:Hf; simpl in H; [discriminate|].
    destruct (collect f xs) as [e|ys'] eqn:Hc; simpl in H; [discriminate|].
    apply ok_inj in H. subst.
    constructor; [apply (HP x); auto | apply (IH ys' eq_refl); intros; eapply HP; eauto].
Qed.

Lemma encode_sentiments_inv (sentiment : list string) (rows : Np.matrix) :
  encode_sentiments sentiment = ok rows ->
  sentiment <> [] /\
  collect adjust (map (Sk.binarize (Sk.classes sentiment)) sentiment) = ok rows.
Proof.
  unfold encode_sentiments. destruct sentiment as [|s0 rest]; [discriminate|].
  unfold Sk.fit_transform. rewrite bind_ok, adjusted_labels_rows.
  intros H. split; [discriminate | exact H].
Qed.

(** ** Secondary dataset: label vectors *)

(** X14.  Whenever the secondary dataset's labels can be encoded, there is
    one label vector per record, every entry of every vector is 0 or 1, and
    records with the same sentiment get the same vector. *)
Theorem secondary_vectors_are_binary (sentiment : list string) (rows : Np.matrix) :
  encode_sentiments sentiment = ok rows ->
  length rows = length sentiment /\
  Forall (Forall (fun x => x = 0%R \/ x = 1%R)) rows /\
  (forall i j s,
      nth_error sentiment i = Some s -> nth_error sentiment j = Some s ->
      nth_error rows i = nth_error rows j).
Proof.
  intros H. destruct (encode_sentiments_inv sentiment rows H) as [Hne Hrows].
  destruct (collect_ok adjust _ _ Hrows) as [Hlen Hnth].
  split; [rewrite Hlen, length_map; reflexivity|]. split.
  - apply (collect_Forall_In adjust _ _ _ Hrows).
    intros b v Hin Hv. apply in_map_iff in Hin. destruct Hin as (s & <- & _).
    destruct (le_lt_dec (length (Sk.binarize (Sk.classes sentiment) s)) num_labels)
      as [Hle|Hgt];
      [|rewrite adjust_overflows in Hv by exact Hgt; discriminate].
    rewrite adjust_pads in Hv by exact Hle. apply ok_inj in Hv. subst v.
    apply Forall_app. split.
    + apply Forall_forall. intros x Hx. apply in_map_iff in Hx.
      destruct Hx as (z & <- & Hz).
      pose proof (binarize_binary (Sk.classes sentiment) s) as Hbin.
      rewrite Forall_forall in Hbin. destruct (Hbin z Hz) as [-> | ->]; auto.
    + apply Forall_forall. intros x Hx. apply repeat_spec in Hx. auto.
  - intros i j s Hi Hj.
    destruct (Hnth i _ (map_nth_error _ _ _ Hi)) as (v & Hv & Hadj).
    destruct (Hnth j _ (map_nth_error _ _ _ Hj)) as (v' & Hv' & Hadj').
    rewrite Hv, Hv'. f_equal. apply ok_inj. congruence.
Qed.

(** Three records over two sentiments. *)
Lemma secondary_vectors_are_binary_witness :
  length [one_hot 0 num_labels; repeat 0%R num_labels; one_hot 0 num_labels]
  = length ["love"; "hate"; "love"]%string /\
  Forall (Forall (fun x => x = 0%R \/ x = 1%R))
         [one_hot 0 num_labels; repeat 0%R num_labels; one_hot 0 num_labels] /\
  (forall i j s,
      nth_error ["love"; "hate"; "love"]%string i = Some s ->
      nth_error ["love"; "hate"; "love"]%string j = Some s ->
      nth_error [one_hot 0 num_labels; repeat 0%R num_labels; one_hot 0 num_labels] i
      = nth_error [one_hot 0 num_labels; repeat 0%R num_labels; one_hot 0 num_labels] j).
Proof.
  apply (secondary_vectors_are_binary ["love"; "hate"; "love"]%string).
  reflexivity.
Defined.

(** X15.  A secondary dataset whose records all carry the same sentiment is
    encoded with all-zero label vectors: no record keeps any label. *)
Theorem single_sentiment_gives_zero_vectors (s : string) (sentiment : list string) :
  sentiment <> [] ->
  (forall x, In x sentiment -> x = s) ->
  encode_sentiments sentiment
  = ok (map (fun _ => repeat 0%R num_labels) sentiment).
Proof.
  intros Hne Hall. unfold encode_sentiments.
  assert (Hfit : Sk.fit_transform sentiment
                 = ok (map (Sk.binarize (Sk.classes sentiment)) sentiment))
    by (destruct sentiment; [contradiction | reflexivity]).
  rewrite Hfit, bind_ok, adjusted_labels_rows, (classes_single s sentiment Hne Hall).
  rewrite (collect_map adjust (fun _ => repeat 0%R num_labels)).
  - rewrite map_map. reflexivity.
  - intros b Hb. apply in_map_iff in Hb. destruct Hb as (x & <- & _). reflexivity.
Qed.

(** Two records, both labelled joy. *)
Lemma single_sentiment_gives_zero_vectors_witness :
  encode_sentiments ["joy"; "joy"]%string
  = ok (map (fun _ => repeat 0%R num_labels) ["joy"; "joy"]%string).
Proof.
  apply (single_sentiment_gives_zero_vectors "joy"%string).
  - discriminate.
  - simpl. intros x [<-|[<-|[]]]; reflexivity.
Defined.

Lemma one_hot_inj (j j' n : nat) : one_hot j n = one_hot j' n -> j = j'.
Proof.
  intros H. apply (f_equal (fun v => nth j v 0%R)) in H.
  rewrite !nth_one_hot, Nat.eqb_refl in H.
  destruct (Nat.eqb_spec j j') as [Heq|Hne]; [exact Heq | lra].
Qed.

Lemma sentiment_vector (sentiment : list string) (s : string) :
  3 <= length (Sk.classes sentiment) <= num_labels ->
  In s sentiment ->
  exists j,
    nth_error (Sk.classes sentiment) j = Some s /\
    adjust (Sk.binarize (Sk.classes sentiment) s) = ok (one_hot j num_labels).
Proof.
  intros [H3 H28] Hin. apply classes_In in Hin.
  destruct (In_nth_error _ _ Hin) as [j Hj].
  exists j. split; [exact Hj|].
  rewrite binarize_wide by exact H3.
  rewrite (indicator_row s _ j (classes_NoDup sentiment) Hj).
  apply adjust_indicator; [apply nth_error_Some; congruence | exact H28].
Qed.

(** X16.  When the secondary dataset has between 3 and 28 distinct
    sentiments, every record is encoded as the one-hot vector at the
    position of its sentiment in the dataset's sorted vocabulary, and two
    records get the same vector only if they carry the same sentiment. *)
Theorem secondary_vector_marks_vocabulary_position (sentiment : list string) :
  3 <= length (Sk.classes sentiment) <= num_labels ->
  exists rows,
    encode_sentiments sentiment = ok rows /\
    (forall i s, nth_error sentiment i = Some s ->
       exists j, nth_error (Sk.classes sentiment) j = Some s /\
                 nth_error rows i = Some (one_hot j num_labels)) /\
    (forall i i' s s',
       nth_error sentiment i = Some s -> nth_error sentiment i' = Some s' ->
       nth_error rows i = nth_error rows i' -> s = s').
Proof.
  intros Hcls.
  assert (Hfit : Sk.fit_transform sentiment
                 = ok (map (Sk.binarize (Sk.classes sentiment)) sentiment)).
  { destruct sentiment; [simpl in Hcls; lia | reflexivity]. }
  unfold encode_sentiments. rewrite Hfit, bind_ok, adjusted_labels_rows.
  destruct (collect_total adjust (map (Sk.binarize (Sk.classes sentiment)) sentiment))
    as [rows Hrows].
  { intros b Hb. apply in_map_iff in Hb. destruct Hb as (s & <- & Hs).
    destruct (sentiment_vector sentiment s Hcls Hs) as (j & _ & Hv). eauto. }
  destruct (collect_ok adjust _ _ Hrows) as [_ Hnth].
  assert (Hrow : forall i s, nth_error sentiment i = Some s ->
                   exists j, nth_error (Sk.classes sentiment) j = Some s /\
                             nth_error rows i = Some (one_hot j num_labels)).
  { intros i s Hi.
    destruct (Hnth i _ (map_nth_error _ _ _ Hi)) as (v & Hv & Hadj).
    destruct (sentiment_vector sentiment s Hcls (nth_error_In _ _ Hi)) as (j & Hj & Hoh).
    exists j. split; [exact Hj|]. rewrite Hv. f_equal. apply ok_inj. congruence. }
  exists rows. split; [exact Hrows|]. split; [exact Hrow|].
  intros i i' s s' Hi Hi' Heq.
  destruct (Hrow i s Hi) as (j & Hj & Hr).
  destruct (Hrow i' s' Hi') as (j' & Hj' & Hr').
  rewrite Hr, Hr' in Heq.
  assert (j = j') by (apply (one_hot_inj j j' num_labels); congruence).
  subst j'. congruence.
Qed.

(** Four records over the sentiments sadness, anger and love. *)
Lemma secondary_vector_marks_vocabulary_position_witness :
  exists rows,
    encode_sentiments ["sadness"; "anger"; "love"; "anger"]%string = ok rows /\
    (forall i s,
       nth_error ["sadness"; "anger"; "love"; "anger"]%string i = Some s ->
       exists j,
         nth_error (Sk.classes ["sadness"; "anger"; "love"; "anger"]%string) j = Some s /\
         nth_error rows i = Some (one_hot j num_labels)) /\
    (forall i i' s s',
       nth_error ["sadness"; "anger"; "love"; "anger"]%string i = Some s ->
       nth_error ["sadness"; "anger"; "love"; "anger"]%string i' = Some s' ->
       nth_error rows i = nth_error rows i' -> s = s').
Proof.
  apply (secondary_vector_marks_vocabulary_position
           ["sadness"; "anger"; "love"; "anger"]%string).
  unfold num_labels. simpl. lia.
Defined.

(** ** Secondary dataset: construction and indexing *)

Lemma adjust_only_ValueError (b : list Z) (e : pyerr) :
  adjust b = raise e -> e = ValueError.
Proof.
  destruct (le_lt_dec (length b) num_labels) as [Hle|Hgt].
  - rewrite adjust_pads by exact Hle. discriminate.
  - rewrite adjust_overflows by exact Hgt. unfold raise. congruence.
Qed.

Lemma adjusted_total (cls : list string) (sentiment : list string) :
  length cls <= num_labels ->
  exists adjusted,
    collect adjust (map (Sk.binarize cls) sentiment) = ok adjusted.
Proof.
  intros Hcls. apply collect_total. intros b Hb.
  apply in_map_iff in Hb. destruct Hb as (s & <- & _).
  rewrite adjust_pads by (apply binarize_length; exact Hcls). eauto.
Qed.

Lemma text_cells_ok (column : list (option string)) :
  forall xs, text_cells column = ok xs <-> column = map Some xs.
Proof.
  unfold text_cells. induction column as [|cell column IH]; intros xs.
  - cbn [collect]. split.
    + intros H. apply ok_inj in H. subst. reflexivity.
    + intros H. destruct xs; [reflexivity | discriminate].
  - cbn [collect]. destruct cell as [s|]; [|split; [discriminate|]].
    + rewrite bind_ok.
      destruct (collect _ column) as [e|ys] eqn:Hc; cbn [bind].
      * split; [discriminate|]. intros H. destruct xs as [|x xs]; [discriminate|].
        injection H as _ H. apply (IH xs) in H. discriminate.
      * split.
        -- intros H. apply ok_inj in H. subst xs. cbn [map]. f_equal.
           apply IH. reflexivity.
        -- intros H. destruct xs as [|x xs]; [discriminate|].
           injection H as -> H. apply (IH xs) in H. apply ok_inj in H. subst. reflexivity.
    + intros H. destruct xs; discriminate.
Qed.

Lemma text_cells_raises (column : list (option string)) :
  In None column -> text_cells column = raise NotAString.
Proof.
  intros H. unfold text_cells. apply collect_raises.
  - intros [s|] e He; [discriminate | unfold raise in He; congruence].
  - exists None. split; [exact H | reflexivity].
Qed.

Lemma strings_of_Some (xs : list string) : strings_of (map Some xs) = xs.
Proof.
  unfold strings_of. induction xs as [|x xs IH]; [reflexivity|].
  cbn [map flat_map app]. rewrite IH. reflexivity.
Qed.

Lemma present_column (column : list (option string)) :
  ~ In None column -> column = map Some (strings_of column).
Proof.
  unfold strings_of. induction column as [|cell column IH]; intros H; [reflexivity|].
  destruct cell as [s|]; [|exfalso; apply H; left; reflexivity].
  cbn [flat_map app map]. f_equal. apply IH. intros Hin. apply H. right. exact Hin.
Qed.

Lemma complete_columns (new_dataset : list (option string * option string)) :
  complete new_dataset <->
  ~ In None (map fst new_dataset) /\ ~ In None (map snd new_dataset).
Proof.
  unfold complete. split.
  - intros H. split; intros Hin; apply in_map_iff in Hin;
      destruct Hin as ([c s] & Heq & Hin); simpl in Heq; subst;
      destruct (H _ _ Hin) as [Hc Hs]; congruence.
  - intros [Hc Hs] content sentiment Hin. split; intros ->.
    + apply Hc. apply in_map_iff. exists (None, sentiment). auto.
    + apply Hs. apply in_map_iff. exists (content, None). auto.
Qed.

(** What a successful construction consists of. *)
Lemma custom_dataset_inv (tok : Tokenizer)
      (new_dataset : list (option string * option string)) (d : CustomDataset) :
  custom_dataset tok new_dataset = ok d ->
  exists sentiment content adjusted,
    map snd new_dataset = map Some sentiment /\
    map fst new_dataset = map Some content /\
    new_dataset <> [] /\
    collect adjust (map (Sk.binarize (Sk.classes sentiment)) sentiment) = ok adjusted /\
    d = {| encodings := set_labels (encode_batch tok content PadLongest 128) adjusted |}.
Proof.
  unfold custom_dataset. intros H.
  destruct (text_cells (map snd new_dataset)) as [e|sentiment] eqn:Hs;
    cbn [bind] in H; [discriminate|].
  apply text_cells_ok in Hs.
  destruct sentiment as [|s0 sentiment]; [discriminate|].
  unfold Sk.fit_transform in H. rewrite bind_ok, adjusted_labels_rows in H.
  destruct (collect adjust _) as [e|adjusted] eqn:Hadj; cbn [bind] in H; [discriminate|].
  destruct (text_cells (map fst new_dataset)) as [e|content] eqn:Hc;
    cbn [bind] in H; [discriminate|].
  apply text_cells_ok in Hc.
  destruct (tokenizer tok content PadLongest 128) as [e|enc] eqn:Htok;
    cbn [bind] in H; [discriminate|].
  destruct (tokenizer_inv _ _ _ _ _ Htok) as [_ ->].
  apply ok_inj in H.
  exists (s0 :: sentiment), content, adjusted.
  split; [exact Hs|]. split; [exact Hc|]. split.
  - intros ->. discriminate.
  - split; [exact Hadj | congruence].
Qed.

(** A complete, non-empty DataFrame with at most 28 sentiments is built. *)
Lemma custom_dataset_built (tok : Tokenizer)
      (new_dataset : list (option string * option string)) :
  new_dataset <> [] ->
  complete new_dataset ->
  length (Sk.classes (strings_of (map snd new_dataset))) <= num_labels ->
  exists adjusted,
    collect adjust
      (map (Sk.binarize (Sk.classes (strings_of (map snd new_dataset))))
           (strings_of (map snd new_dataset))) = ok adjusted /\
    custom_dataset tok new_dataset
    = ok {| encodings :=
              set_labels
                (encode_batch tok (strings_of (map fst new_dataset)) PadLongest 128)
                adjusted |}.
Proof.
  intros Hne Hcomplete Hcls.
  apply complete_columns in Hcomplete. destruct Hcomplete as [Hc Hs].
  pose proof (present_column _ Hc) as Hcontent.
  pose proof (present_column _ Hs) as Hsentiment.
  set (sentiment := strings_of (map snd new_dataset)) in *.
  set (content := strings_of (map fst new_dataset)) in *.
  destruct (adjusted_total (Sk.classes sentiment) sentiment Hcls) as [adjusted Hadj].
  exists adjusted. split; [exact Hadj|].
  assert (Hsne : sentiment <> []).
  { intros Hnil. rewrite Hnil in Hsentiment. destruct new_dataset; [contradiction|discriminate]. }
  assert (Hcne : content <> []).
  { intros Hnil. rewrite Hnil in Hcontent. destruct new_dataset; [contradiction|discriminate]. }
  unfold custom_dataset.
  rewrite (proj2 (text_cells_ok _ _) Hsentiment), bind_ok.
  assert (Hfit : Sk.fit_transform sentiment
                 = ok (map (Sk.binarize (Sk.classes sentiment)) sentiment))
    by (destruct sentiment; [contradiction | reflexivity]).
  rewrite Hfit, bind_ok, adjusted_labels_rows, Hadj, bind_ok.
  rewrite (proj2 (text_cells_ok _ _) Hcontent), bind_ok.
  rewrite (tokenizer_ok tok content _ _ Hcne), bind_ok. reflexivity.
Qed.

(** X18.  In a secondary dataset that was built, the items are exactly the
    indices below its length: indexing at or past the length raises
    [IndexError], and every item below it carries token ids and an attention
    mask of one common width (at most 128) and a label vector of width 28. *)
Theorem custom_dataset_items
        (tok : Tokenizer) (new_dataset : list (option string * option string))
        (d : CustomDataset) :
  custom_dataset tok new_dataset = ok d ->
  len d = length new_dataset /\
  exists width,
    width <= 128 /\
    forall i,
      (len d <= i -> dataset_getitem d i = raise IndexError) /\
      (i < len d ->
       exists ex v,
         dataset_getitem d i = ok ex /\
         length (token_ids ex) = width /\
         length (mask ex) = width /\
         label_vector ex = Some v /\
         length v = num_labels).
Proof.
  intros Hd.
  destruct (custom_dataset_inv tok new_dataset d Hd)
    as (sentiment & texts & adjusted & Hs & Hc & Hne & Hadj & ->).
  destruct (collect_ok adjust _ _ Hadj) as [Hlen Hnth].
  rewrite length_map in Hlen.
  assert (Hlc : length texts = length new_dataset)
    by (rewrite <- (length_map Some texts), <- Hc, length_map; reflexivity).
  assert (Hls : length sentiment = length new_dataset)
    by (rewrite <- (length_map Some sentiment), <- Hs, length_map; reflexivity).
  set (w := padded_width PadLongest 128 (map (encode_text tok 128) texts)).
  assert (Hlend : len {| encodings := set_labels (encode_batch tok texts PadLongest 128) adjusted |}
                  = length new_dataset).
  { unfold len, encode_batch. cbn [encodings set_labels input_ids].
    rewrite !length_map. exact Hlc. }
  split; [exact Hlend|].
  exists w. split.
  { unfold w, padded_width. apply list_max_le. apply Forall_forall. intros n Hn.
    apply in_map_iff in Hn. destruct Hn as (e & <- & He).
    apply in_map_iff in He. destruct He as (s & <- & _). apply encode_text_length. }
  intros i. rewrite Hlend. split.
  - intros Hi. unfold dataset_getitem, encode_batch.
    cbn [encodings set_labels input_ids]. unfold getitem at 1.
    rewrite (proj2 (nth_error_None _ _)); [reflexivity|].
    rewrite !length_map. lia.
  - intros Hi.
    destruct (nth_error texts i) as [content|] eqn:Hci;
      [|apply nth_error_None in Hci; lia].
    destruct (nth_error sentiment i) as [s|] eqn:Hsi;
      [|apply nth_error_None in Hsi; lia].
    destruct (Hnth i _ (map_nth_error _ _ _ Hsi)) as (v & Hv & Hadjv).
    pose proof (longest_bounds tok texts i content Hci) as Hw. fold w in Hw.
    exists {| token_ids := pad_ids tok w (encode_text tok 128 content);
              mask := pad_mask w (encode_text tok 128 content);
              label_vector := Some v |}, v.
    split; [|split; [|split; [|split]]].
    + unfold dataset_getitem, encode_batch.
      cbn [encodings set_labels input_ids attention_mask labels]. fold w.
      rewrite (getitem_nth _ i _
                 (map_nth_error _ _ _ (map_nth_error (encode_text tok 128) _ _ Hci))).
      rewrite bind_ok.
      rewrite (getitem_nth _ i _
                 (map_nth_error _ _ _ (map_nth_error (encode_text tok 128) _ _ Hci))).
      rewrite bind_ok, (getitem_nth _ i _ Hv), bind_ok. reflexivity.
    + cbn [token_ids]. unfold pad_ids. rewrite length_app, repeat_length. lia.
    + cbn [mask]. unfold pad_mask. rewrite length_app, !repeat_length. lia.
    + reflexivity.
    + apply (adjust_length _ _ Hadjv).
Qed.

(** Two records with short texts. *)
Lemma custom_dataset_items_witness :
  exists d,
    custom_dataset char_tokenizer
      [(Some "ok"%string, Some "joy"%string);
       (Some "so angry"%string, Some "anger"%string)] = ok d /\
    len d = 2 /\
    exists width,
      width <= 128 /\
      forall i,
        (len d <= i -> dataset_getitem d i = raise IndexError) /\
        (i < len d ->
         exists ex v,
           dataset_getitem d i = ok ex /\
           length (token_ids ex) = width /\
           length (mask ex) = width /\
           label_vector ex = Some v /\
           length v = num_labels).
Proof.
  eexists. split; [reflexivity|].
  apply (custom_dataset_items char_tokenizer
           [(Some "ok"%string, Some "joy"%string);
            (Some "so angry"%string, Some "anger"%string)]).
  reflexivity.
Defined.

Lemma classes_pair (a b : string) (y : list string) :
  String.compare a b = Lt ->
  In a y -> In b y -> (forall x, In x y -> x = a \/ x = b) ->
  Sk.classes y = [a; b].
Proof.
  intros Hab Ha Hb Hall.
  pose proof (classes_sorted y) as Hs.
  assert (Hin : forall x, In x (Sk.classes y) <-> x = a \/ x = b).
  { intros x. rewrite classes_In_iff. split; [apply Hall|].
    intros [->| ->]; assumption. }
  assert (Hirr : forall x, String.compare x x <> Lt)
    by (intros x; rewrite string_compare_refl; discriminate).
  assert (Hba : String.compare b a <> Lt).
  { intros H. apply (Hirr a). apply string_lt_trans with (b := b); assumption. }
  destruct (Sk.classes y) as [|x [|x' l]].
  - exfalso. apply (proj2 (Hin a)). left. reflexivity.
  - exfalso.
    assert (Hax : a = x)
      by (destruct (proj2 (Hin a) (or_introl eq_refl)) as [Hq|[]]; auto).
    assert (Hbx : b = x)
      by (destruct (proj2 (Hin b) (or_intror eq_refl)) as [Hq|[]]; auto).
    subst a b. apply (Hirr x). exact Hab.
  - inversion Hs as [|? ? Hs' Hall']; subst.
    inversion Hall' as [|? ? Hxx' Hxl]; subst.
    assert (Hx : x = a \/ x = b) by (apply Hin; left; reflexivity).
    assert (Hx' : x' = a \/ x' = b) by (apply Hin; right; left; reflexivity).
    assert (x = a /\ x' = b) as [-> ->].
    { destruct Hx as [->| ->], Hx' as [->| ->]; auto; exfalso.
      - apply (Hirr a). exact Hxx'.
      - apply Hba. exact Hxx'.
      - apply (Hirr b). exact Hxx'. }
    destruct l as [|z l]; [reflexivity|]. exfalso.
    inversion Hxl as [|? ? Haz _]; subst.
    inversion Hs' as [|? ? _ Hbl]; subst.
    inversion Hbl as [|? ? Hbz _]; subst.
    assert (Hz : z = a \/ z = b) by (apply Hin; right; right; left; reflexivity).
    destruct Hz as [->| ->]; [apply (Hirr a); exact Haz | apply (Hirr b); exact Hbz].
Qed.

(** X19.  With exactly two distinct sentiments the binarizer keeps a single
    column: every record of the first sentiment (in sorted order) gets the
    all-zero vector, every record of the second gets the one-hot vector at
    index 0. *)
Theorem two_sentiments_share_one_column (a b : string) (sentiment : list string) :
  String.compare a b = Lt ->
  In a sentiment -> In b sentiment ->
  (forall x, In x sentiment -> x = a \/ x = b) ->
  encode_sentiments sentiment
  = ok (map (fun s => if String.eqb s b then one_hot 0 num_labels
                      else repeat 0%R num_labels) sentiment).
Proof.
  intros Hab Ha Hb Hall. unfold encode_sentiments.
  assert (Hfit : Sk.fit_transform sentiment
                 = ok (map (Sk.binarize (Sk.classes sentiment)) sentiment))
    by (destruct sentiment; [contradiction | reflexivity]).
  rewrite Hfit, bind_ok, adjusted_labels_rows, (classes_pair a b sentiment Hab Ha Hb Hall).
  rewrite (collect_map adjust
             (fun row => match row with
                         | [1%Z] => one_hot 0 num_labels
                         | _ => repeat 0%R num_labels
                         end)).
  - rewrite map_map. f_equal. apply map_ext. intros s.
    cbn [Sk.binarize]. destruct (String.eqb s b); reflexivity.
  - intros row Hrow. apply in_map_iff in Hrow. destruct Hrow as (s & <- & _).
    cbn [Sk.binarize]. destruct (String.eqb s b); reflexivity.
Qed.

(** Three records over the sentiments negative and positive. *)
Lemma two_sentiments_share_one_column_witness :
  encode_sentiments ["positive"; "negative"; "positive"]%string
  = ok [one_hot 0 num_labels; repeat 0%R num_labels; one_hot 0 num_labels].
Proof.
  apply (two_sentiments_share_one_column "negative"%string "positive"%string
           ["positive"; "negative"; "positive"]%string).
  - reflexivity.
  - simpl. auto.
  - simpl. auto.
  - simpl. intros x [<-|[<-|[<-|[]]]]; auto.
Defined.

(** ** Padding strategies *)

Lemma list_max_In (l : list nat) : l <> [] -> In (list_max l) l.
Proof.
  induction l as [|n l IH]; [contradiction|]. intros _.
  destruct l as [|m l].
  - left. simpl. lia.
  - specialize (IH ltac:(discriminate)).
    change (list_max (n :: m :: l)) with (Nat.max n (list_max (m :: l))).
    destruct (Nat.max_spec n (list_max (m :: l))) as [[_ ->]|[_ ->]];
      [right; exact IH | left; reflexivity].
Qed.

Lemma encode_text_full (tok : Tokenizer) (s : string) :
  length (encode_text tok 128 s) = 128 <-> 126 <= length (tokenize tok s).
Proof.
  unfold encode_text. cbn [length]. rewrite length_app, length_firstn. cbn [length].
  change (128 - 2) with 126. lia.
Qed.

(** X20.  Padding to the longest sequence and padding to the maximal length
    return the same batch exactly when one of the texts has at least 126
    tokens (so that its encoding fills all 128 positions). *)
Theorem padding_strategies_agree_iff (tok : Tokenizer) (texts : list string) :
  (exists enc,
     tokenizer tok texts PadLongest 128 = ok enc /\
     tokenizer tok texts PadMaxLength 128 = ok enc) <->
  exists s, In s texts /\ 126 <= length (tokenize tok s).
Proof.
  split.
  - intros (enc & Hl & Hm).
    destruct (tokenizer_inv _ _ _ _ _ Hl) as [Hne Hel].
    destruct (tokenizer_inv _ _ _ _ _ Hm) as [_ Hem].
    assert (Heq : encode_batch tok texts PadLongest 128
                  = encode_batch tok texts PadMaxLength 128) by congruence.
    destruct texts as [|s0 rest]; [contradiction|].
    set (texts := s0 :: rest) in *.
    set (seqs := map (encode_text tok 128) texts).
    assert (Hw : list_max (map (@length Z) seqs) = 128).
    { apply (f_equal input_ids) in Heq. unfold encode_batch in Heq.
      cbn [input_ids padded_width] in Heq. fold seqs in Heq.
      apply (f_equal (fun m => length (nth 0 m []))) in Heq.
      unfold seqs, texts in Heq. cbn [map nth] in Heq.
      fold texts in Heq. fold seqs in Heq.
      pose proof (longest_bounds tok texts 0 s0 eq_refl) as Hb.
      unfold padded_width in Hb. fold seqs in Hb.
      pose proof (encode_text_length tok s0) as Hl0.
      unfold pad_ids in Heq. rewrite !length_app, !repeat_length in Heq.
      unfold seqs, texts in Hb |- *. cbn [map] in Hb |- *. lia. }
    assert (Hin : In 128 (map (@length Z) seqs)).
    { rewrite <- Hw. apply list_max_In. discriminate. }
    apply in_map_iff in Hin. destruct Hin as (e & He & Hin).
    apply in_map_iff in Hin. destruct Hin as (s & <- & Hs).
    exists s. split; [exact Hs | apply encode_text_full; exact He].
  - intros (s & Hs & Hlong).
    assert (Hne : texts <> []) by (intros ->; exact Hs).
    assert (Hw : padded_width PadLongest 128 (map (encode_text tok 128) texts) = 128).
    { destruct (In_nth_error _ _ Hs) as [i Hi].
      pose proof (longest_bounds tok texts i s Hi) as Hb.
      apply encode_text_full in Hlong. lia. }
    exists (encode_batch tok texts PadMaxLength 128).
    split; [|apply tokenizer_ok; exact Hne].
    rewrite (tokenizer_ok tok texts _ _ Hne). f_equal.
    unfold encode_batch. rewrite Hw. reflexivity.
Qed.

(** * Label vectors: width and meaning of an index *)

Lemma preprocess_labels_row (label_column : list Z) (rows : Np.matrix) (i : nat) (l : Z) :
  preprocess_labels label_column = ok rows ->
  nth_error label_column i = Some l ->
  (-28 <= l < 28)%Z /\
  nth_error rows i = Some (one_hot (Z.to_nat (l mod 28)) num_labels).
Proof.
  intros H Hi. rewrite preprocess_labels_rows in H.
  destruct (collect_ok encode _ _ H) as [_ Hnth].
  destruct (Hnth i l Hi) as (v & Hv & He).
  destruct (encode_cases l v He) as [Hl ->]. split; assumption.
Qed.

Lemma mod_28_index (l : Z) : Z.to_nat (l mod 28) < num_labels.
Proof.
  pose proof (Z.mod_pos_bound l 28 ltac:(lia)). unfold num_labels. lia.
Qed.

Lemma decode_one_hot (j : nat) :
  j < num_labels ->
  decode (one_hot j num_labels) threshold = [nth j emotion_labels EmptyString].
Proof.
  intros Hj. unfold decode. apply predicted_one_hot.
  rewrite emotion_labels_length. exact Hj.
Qed.

Lemma encode_sentiments_rows (sentiment : list string) :
  3 <= length (Sk.classes sentiment) <= num_labels ->
  exists rows,
    encode_sentiments sentiment = ok rows /\
    forall i s, nth_error sentiment i = Some s ->
      exists j, nth_error (Sk.classes sentiment) j = Some s /\
                nth_error rows i = Some (one_hot j num_labels).
Proof.
  intros Hcls.
  assert (Hfit : Sk.fit_transform sentiment
                 = ok (map (Sk.binarize (Sk.classes sentiment)) sentiment)).
  { destruct sentiment; [simpl in Hcls; lia | reflexivity]. }
  destruct (adjusted_total (Sk.classes sentiment) sentiment (proj2 Hcls)) as [rows Hrows].
  exists rows. split.
  - unfold encode_sentiments. rewrite Hfit, bind_ok, adjusted_labels_rows. exact Hrows.
  - intros i s Hi.
    destruct (collect_ok adjust _ _ Hrows) as [_ Hnth].
    destruct (Hnth i _ (map_nth_error _ _ _ Hi)) as (v & Hv & Hadj).
    destruct (sentiment_vector sentiment s Hcls (nth_error_In _ _ Hi)) as (j & Hj & Hadj').
    exists j. split; [exact Hj|]. rewrite Hv. f_equal.
    apply ok_inj. rewrite <- Hadj, <- Hadj'. reflexivity.
Qed.

(** C4, as stated, fails in its second half.  In a secondary dataset whose
    sentiments are anger, love and sadness, the record labelled anger gets
    the vector with its 1 at index 0: the very vector of the primary label 0,
    whose Label Space category is admiration, while anger is category 2. *)
Lemma secondary_index_is_another_category :
  exists rows v,
    encode_sentiments ["anger"; "love"; "sadness"]%string = ok rows /\
    nth_error rows 0 = Some v /\
    encode 0 = ok v /\
    decode v threshold = ["admiration"%string] /\
    index_of "anger"%string emotion_labels = Some 2.
Proof.
  exists [one_hot 0 num_labels; one_hot 1 num_labels; one_hot 2 num_labels],
         (one_hot 0 num_labels).
  repeat split; try reflexivity.
  unfold decode. rewrite predicted_one_hot; [reflexivity|].
  rewrite emotion_labels_length. unfold num_labels. lia.
Qed.

(** C4, amended.  Every label vector produced by either encoder has exactly
    length N = 28.  In a vector of the primary dataset index [i] is Label
    Space category [i]: the vector of an accepted integer label [l] has its
    single 1 at index [l mod 28] (that is [l] for a label in [[0, N)]) and
    decodes to that category.  In a vector of a secondary dataset with
    between 3 and N distinct sentiments index [i] is the [i]-th class of
    that dataset's own sorted vocabulary: the vector of a record has its
    single 1 at the position of the record's sentiment in the vocabulary.
    It is Label Space category [i], so that every record's vector decodes
    to the record's own sentiment, exactly when the vocabulary lists its
    classes at the positions the Label Space gives them. *)
Theorem label_vectors_width_and_alignment :
  (forall (label_column : list Z) (rows : Np.matrix),
      preprocess_labels label_column = ok rows ->
      Forall (fun v => length v = num_labels) rows /\
      forall i l, nth_error label_column i = Some l ->
        exists v,
          nth_error rows i = Some v /\
          is_one_hot v (Z.to_nat (l mod 28)) /\
          ((0 <= l < 28)%Z -> is_one_hot v (Z.to_nat l)) /\
          decode v threshold = [nth (Z.to_nat (l mod 28)) emotion_labels EmptyString]) /\
  (forall (sentiment : list string) (rows : Np.matrix),
      encode_sentiments sentiment = ok rows ->
      Forall (fun v => length v = num_labels) rows) /\
  (forall sentiment : list string,
      3 <= length (Sk.classes sentiment) <= num_labels ->
      exists rows,
        encode_sentiments sentiment = ok rows /\
        (forall i s, nth_error sentiment i = Some s ->
           exists j v,
             nth_error (Sk.classes sentiment) j = Some s /\
             nth_error rows i = Some v /\
             is_one_hot v j) /\
        ((forall i s, nth_error sentiment i = Some s ->
            exists v, nth_error rows i = Some v /\ decode v threshold = [s])
         <-> aligned (Sk.classes sentiment))).
Proof.
  split; [|split].
  - intros col rows H. split.
    + rewrite preprocess_labels_rows in H.
      apply (collect_Forall encode _ encode_length col rows H).
    + intros i l Hi.
      destruct (preprocess_labels_row col rows i l H Hi) as [Hl Hv].
      eexists. split; [exact Hv|]. split; [|split].
      * apply one_hot_is_one_hot, mod_28_index.
      * intros Hr. rewrite Z.mod_small by lia.
        apply one_hot_is_one_hot. unfold num_labels. lia.
      * apply decode_one_hot, mod_28_index.
  - intros sentiment rows H. unfold encode_sentiments in H.
    destruct (Sk.fit_transform sentiment) as [e|labels]; simpl in H; [discriminate|].
    rewrite adjusted_labels_rows in H.
    apply (collect_Forall adjust _ adjust_length labels rows H).
  - intros sentiment Hcls.
    destruct (encode_sentiments_rows sentiment Hcls) as (rows & Hrows & Hrow).
    exists rows. split; [exact Hrows|]. split; [|split].
    + intros i s Hi. destruct (Hrow i s Hi) as (j & Hj & Hv).
      exists j, (one_hot j num_labels). split; [exact Hj|]. split; [exact Hv|].
      apply one_hot_is_one_hot.
      assert (j < length (Sk.classes sentiment)) by (apply nth_error_Some; congruence).
      lia.
    + intros Hdec j c Hj.
      assert (Hjlt : j < num_labels).
      { assert (j < length (Sk.classes sentiment)) by (apply nth_error_Some; congruence).
        lia. }
      destruct (In_nth_error sentiment c) as [i Hi].
      { apply classes_In_iff. eapply nth_error_In. exact Hj. }
      destruct (Hrow i c Hi) as (j' & Hj' & Hv).
      assert (j' = j).
      { pose proof (classes_NoDup sentiment) as Hnd. rewrite NoDup_nth_error in Hnd.
        apply Hnd; [apply nth_error_Some; congruence | congruence]. }
      subst j'.
      destruct (Hdec i c Hi) as (v & Hv' & Hd).
      assert (v = one_hot j num_labels) by congruence. subst v.
      rewrite (decode_one_hot j Hjlt) in Hd.
      assert (Hn : nth j emotion_labels EmptyString = c) by congruence.
      rewrite <- Hn. apply nth_error_nth'. rewrite emotion_labels_length. exact Hjlt.
    + intros Hal i s Hi. destruct (Hrow i s Hi) as (j & Hj & Hv).
      exists (one_hot j num_labels). split; [exact Hv|].
      assert (Hjlt : j < num_labels).
      { assert (j < length (Sk.classes sentiment)) by (apply nth_error_Some; congruence).
        lia. }
      rewrite (decode_one_hot j Hjlt). f_equal.
      apply nth_error_nth. apply Hal. exact Hj.
Qed.

(** The primary labels 3 and -1, and a secondary vocabulary laid out as the
    first three Label Space categories. *)
Lemma label_vectors_width_and_alignment_witness :
  (Forall (fun v => length v = num_labels)
          [one_hot 3 num_labels; one_hot 27 num_labels] /\
   forall i l, nth_error [3%Z; (-1)%Z] i = Some l ->
     exists v,
       nth_error [one_hot 3 num_labels; one_hot 27 num_labels] i = Some v /\
       is_one_hot v (Z.to_nat (l mod 28)) /\
       ((0 <= l < 28)%Z -> is_one_hot v (Z.to_nat l)) /\
       decode v threshold = [nth (Z.to_nat (l mod 28)) emotion_labels EmptyString]) /\
  Forall (fun v => length v = num_labels) [repeat 0%R num_labels] /\
  exists rows,
    encode_sentiments ["anger"; "admiration"; "amusement"; "anger"]%string = ok rows /\
    (forall i s,
        nth_error ["anger"; "admiration"; "amusement"; "anger"]%string i = Some s ->
        exists j v,
          nth_error (Sk.classes ["anger"; "admiration"; "amusement"; "anger"]%string) j
          = Some s /\
          nth_error rows i = Some v /\
          is_one_hot v j) /\
    ((forall i s,
         nth_error ["anger"; "admiration"; "amusement"; "anger"]%string i = Some s ->
         exists v, nth_error rows i = Some v /\ decode v threshold = [s])
     <-> aligned (Sk.classes ["anger"; "admiration"; "amusement"; "anger"]%string)).
Proof.
  split; [|split].
  - apply (proj1 label_vectors_width_and_alignment [3%Z; (-1)%Z]). reflexivity.
  - apply (proj1 (proj2 label_vectors_width_and_alignment) ["joy"%string]). reflexivity.
  - apply (proj2 (proj2 label_vectors_width_and_alignment)).
    unfold num_labels. simpl. lia.
Defined.

(** * Dataset Adapter: which DataFrames are built, and what they hold *)

Lemma map_Some_nth (column : list (option string)) (xs : list string) (i : nat)
      (cell : option string) :
  column = map Some xs -> nth_error column i = Some cell ->
  exists x, cell = Some x /\ nth_error xs i = Some x.
Proof.
  intros -> H. rewrite nth_error_map in H.
  destruct (nth_error xs i) as [x|]; [|discriminate].
  exists x. split; [cbn [option_map] in H; congruence | reflexivity].
Qed.

Lemma map_Some_complete (new_dataset : list (option string * option string))
      (content sentiment : list string) :
  map fst new_dataset = map Some content ->
  map snd new_dataset = map Some sentiment ->
  complete new_dataset.
Proof.
  intros Hc Hs. apply complete_columns.
  split; [rewrite Hc | rewrite Hs]; intros H; apply in_map_iff in H;
    destruct H as (x & Hx & _); discriminate.
Qed.

Lemma wide_vocabulary_raises (sentiment : list string) :
  sentiment <> [] ->
  num_labels < length (Sk.classes sentiment) ->
  collect adjust (map (Sk.binarize (Sk.classes sentiment)) sentiment)
  = raise ValueError.
Proof.
  intros Hne Hwide. apply collect_raises; [apply adjust_only_ValueError|].
  destruct sentiment as [|s0 rest]; [contradiction|].
  exists (Sk.binarize (Sk.classes (s0 :: rest)) s0). split.
  - apply in_map. left. reflexivity.
  - apply adjust_overflows.
    rewrite binarize_wide by (unfold num_labels in Hwide; lia).
    rewrite length_map. exact Hwide.
Qed.

(** C10, as stated, fails: on a dataset with 29 distinct sentiments the
    adapter raises and constructs no dataset, hence no example for any of
    the 29 records; and a record whose text field is empty in the file
    (a missing cell of the DataFrame) makes it raise as well. *)
Lemma custom_dataset_raises_on_wide_vocabulary :
  length wide_dataset = 29 /\
  custom_dataset char_tokenizer wide_dataset = raise ValueError /\
  exists e,
    custom_dataset char_tokenizer
      [(Some "fine"%string, Some "joy"%string); (None, Some "anger"%string)]
    = raise e.
Proof.
  split; [reflexivity|]. split; [vm_compute; reflexivity|].
  eexists. vm_compute. reflexivity.
Qed.

(** C10, amended.  The adapter builds a dataset exactly for the non-empty
    DataFrames without missing cells whose sentiments take at most N
    distinct values.  It then skips no record: the dataset has as many
    examples as there are records, and example [i] carries the encoding of
    record [i]'s text and the label vector of record [i]'s sentiment.  In
    every other case it raises and builds nothing: on an empty DataFrame
    and on more than N distinct sentiments a [ValueError], and on a missing
    cell (an empty field of the file) an exception of the library that
    meets it. *)
Theorem custom_dataset_keeps_every_record
        (tok : Tokenizer) (new_dataset : list (option string * option string)) :
  ((exists d, custom_dataset tok new_dataset = ok d) <->
   new_dataset <> [] /\
   complete new_dataset /\
   length (Sk.classes (strings_of (map snd new_dataset))) <= num_labels) /\
  (forall d,
      custom_dataset tok new_dataset = ok d ->
      len d = length new_dataset /\
      forall i content sentiment,
        nth_error new_dataset i = Some (content, sentiment) ->
        exists c s v,
          content = Some c /\
          sentiment = Some s /\
          adjust (Sk.binarize (Sk.classes (strings_of (map snd new_dataset))) s) = ok v /\
          dataset_getitem d i
          = ok {| token_ids :=
                    pad_ids tok
                      (padded_width PadLongest 128
                         (map (encode_text tok 128) (strings_of (map fst new_dataset))))
                      (encode_text tok 128 c);
                  mask :=
                    pad_mask
                      (padded_width PadLongest 128
                         (map (encode_text tok 128) (strings_of (map fst new_dataset))))
                      (encode_text tok 128 c);
                  label_vector := Some v |}) /\
  (new_dataset = [] -> custom_dataset tok new_dataset = raise ValueError) /\
  (new_dataset <> [] ->
   complete new_dataset ->
   num_labels < length (Sk.classes (strings_of (map snd new_dataset))) ->
   custom_dataset tok new_dataset = raise ValueError) /\
  (~ complete new_dataset -> exists e, custom_dataset tok new_dataset = raise e).
Proof.
  assert (Hinv : forall d, custom_dataset tok new_dataset = ok d ->
            exists sentiment content adjusted,
              map snd new_dataset = map Some sentiment /\
              map fst new_dataset = map Some content /\
              strings_of (map snd new_dataset) = sentiment /\
              strings_of (map fst new_dataset) = content /\
              new_dataset <> [] /\
              collect adjust (map (Sk.binarize (Sk.classes sentiment)) sentiment)
              = ok adjusted /\
              d = {| encodings :=
                       set_labels (encode_batch tok content PadLongest 128) adjusted |}).
  { intros d Hd.
    destruct (custom_dataset_inv tok new_dataset d Hd)
      as (sentiment & content & adjusted & Hs & Hc & Hne & Hadj & Hdeq).
    exists sentiment, content, adjusted.
    repeat split; try assumption.
    - rewrite Hs. apply strings_of_Some.
    - rewrite Hc. apply strings_of_Some. }
  split; [|split; [|split; [|split]]].
  - split.
    + intros [d Hd].
      destruct (Hinv d Hd) as (sentiment & content & adjusted
                               & Hs & Hc & Hss & Hcs & Hne & Hadj & _).
      split; [exact Hne|]. split; [exact (map_Some_complete _ _ _ Hc Hs)|].
      rewrite Hss.
      destruct (le_lt_dec (length (Sk.classes sentiment)) num_labels) as [Hle|Hgt];
        [exact Hle|].
      rewrite wide_vocabulary_raises in Hadj; [discriminate | | exact Hgt].
      intros Hnil. rewrite Hnil in Hs. destruct new_dataset; [contradiction|discriminate].
    + intros (Hne & Hcomplete & Hcls).
      destruct (custom_dataset_built tok new_dataset Hne Hcomplete Hcls)
        as (adjusted & _ & Hd).
      eexists. exact Hd.
  - intros d Hd.
    destruct (Hinv d Hd) as (sentiment & texts & adjusted
                             & Hs & Hc & Hss & Hcs & Hne & Hadj & ->).
    rewrite Hss, Hcs.
    assert (Hlc : length texts = length new_dataset)
      by (rewrite <- (length_map Some texts), <- Hc, length_map; reflexivity).
    split.
    + unfold len, encode_batch. cbn [encodings set_labels input_ids].
      rewrite !length_map. exact Hlc.
    + intros i content cell Hi.
      destruct (map_Some_nth _ texts i content Hc) as (c & -> & Hci);
        [rewrite nth_error_map, Hi; reflexivity|].
      destruct (map_Some_nth _ sentiment i cell Hs) as (s & -> & Hsi);
        [rewrite nth_error_map, Hi; reflexivity|].
      destruct (collect_ok adjust _ _ Hadj) as [_ Hnth].
      destruct (Hnth i _ (map_nth_error _ _ _ Hsi)) as (v & Hv & Hadjv).
      exists c, s, v. split; [reflexivity|]. split; [reflexivity|].
      split; [exact Hadjv|].
      unfold dataset_getitem, encode_batch.
      cbn [encodings set_labels input_ids attention_mask labels].
      rewrite (getitem_nth _ i _
                 (map_nth_error _ _ _ (map_nth_error (encode_text tok 128) _ _ Hci))).
      rewrite bind_ok.
      rewrite (getitem_nth _ i _
                 (map_nth_error _ _ _ (map_nth_error (encode_text tok 128) _ _ Hci))).
      rewrite bind_ok, (getitem_nth _ i _ Hv), bind_ok.
      reflexivity.
  - intros ->. reflexivity.
  - intros Hne Hcomplete Hwide.
    apply complete_columns in Hcomplete. destruct Hcomplete as [_ Hs].
    pose proof (present_column _ Hs) as Hsentiment.
    set (sentiment := strings_of (map snd new_dataset)) in *.
    assert (Hsne : sentiment <> []).
    { intros Hnil. rewrite Hnil in Hsentiment.
      destruct new_dataset; [contradiction|discriminate]. }
    unfold custom_dataset.
    rewrite (proj2 (text_cells_ok _ _) Hsentiment), bind_ok.
    assert (Hfit : Sk.fit_transform sentiment
                   = ok (map (Sk.binarize (Sk.classes sentiment)) sentiment))
      by (destruct sentiment; [contradiction | reflexivity]).
    rewrite Hfit, bind_ok, adjusted_labels_rows.
    rewrite (wide_vocabulary_raises sentiment Hsne Hwide). reflexivity.
  - intros Hincomplete.
    destruct (custom_dataset tok new_dataset) as [e|d] eqn:Hd; [exists e; reflexivity|].
    exfalso. apply Hincomplete.
    destruct (Hinv d eq_refl) as (sentiment & content & _ & Hs & Hc & _).
    exact (map_Some_complete _ _ _ Hc Hs).
Qed.

(** Two complete records; no record; 29 records with a sentiment each; a
    record whose text is missing. *)
Lemma custom_dataset_keeps_every_record_witness :
  (exists d,
      custom_dataset char_tokenizer
        [(Some "ok"%string, Some "joy"%string);
         (Some "so angry"%string, Some "anger"%string)] = ok d /\
      len d = 2) /\
  custom_dataset char_tokenizer [] = raise ValueError /\
  custom_dataset char_tokenizer wide_dataset = raise ValueError /\
  exists e,
    custom_dataset char_tokenizer
      [(Some "fine"%string, Some "joy"%string); (None, Some "anger"%string)]
    = raise e.
Proof.
  split; [|split; [|split]].
  - destruct (proj2 (proj1 (custom_dataset_keeps_every_record char_tokenizer
                              [(Some "ok"%string, Some "joy"%string);
                               (Some "so angry"%string, Some "anger"%string)])))
      as [d Hd].
    { split; [discriminate|]. split.
      - intros content sentiment [H|[H|[]]]; inversion H; split; discriminate.
      - vm_compute. lia. }
    exists d. split; [exact Hd|].
    apply (proj1 (proj2 (custom_dataset_keeps_every_record char_tokenizer
                           [(Some "ok"%string, Some "joy"%string);
                            (Some "so angry"%string, Some "anger"%string)])) d Hd).
  - apply (proj1 (proj2 (proj2 (custom_dataset_keeps_every_record char_tokenizer [])))).
    reflexivity.
  - apply (proj1 (proj2 (proj2 (proj2
             (custom_dataset_keeps_every_record char_tokenizer wide_dataset))))).
    + discriminate.
    + intros content sentiment Hin. unfold wide_dataset in Hin.
      apply in_map_iff in Hin. destruct Hin as (n & Hn & _).
      inversion Hn. split; discriminate.
    + vm_compute. lia.
  - apply (proj2 (proj2 (proj2 (proj2
             (custom_dataset_keeps_every_record char_tokenizer
                [(Some "fine"%string, Some "joy"%string); (None, Some "anger"%string)]))))).
    intros H. destruct (H None (Some "anger"%string)) as [Hc _].
    + right. left. reflexivity.
    + apply Hc. reflexivity.
Defined.

(** * Inference Pipeline: results, order and probabilities *)

Lemma nth_error_combine {A B : Type} (xs : list A) (ys : list B) :
  forall i,
    nth_error (combine xs ys) i
    = match nth_error xs i, nth_error ys i with
      | Some x, Some y => Some (x, y)
      | _, _ => None
      end.
Proof.
  revert ys. induction xs as [|x xs IH]; intros [|y ys] [|i]; cbn [combine nth_error];
    try reflexivity.
  - destruct (nth_error xs i); reflexivity.
  - apply IH.
Qed.

Lemma probabilities_width (row : list R) :
  length row = num_labels ->
  length (combine emotion_labels (map sigmoid row)) = num_labels /\
  map fst (combine emotion_labels (map sigmoid row)) = emotion_labels.
Proof.
  intros Hw. split.
  - rewrite length_combine, length_map, Hw, emotion_labels_length. apply Nat.min_id.
  - rewrite map_fst_combine, length_map, Hw, <- emotion_labels_length.
    apply firstn_all.
Qed.

(** C6, as stated, fails on the empty sequence of texts: the tokenizer call
    raises and [predict] returns nothing, also with a forward pass that
    keeps its contract. *)
Lemma predict_raises_on_no_text :
  logits_shape zero_model /\
  predict char_tokenizer zero_model [] threshold = raise IndexError.
Proof.
  split; [exact zero_model_shape | reflexivity].
Qed.

(** C6, amended.  Given a forward pass that returns logits of shape
    [[batch, N]], [predict] returns, for every non-empty sequence of texts,
    one result per text in the order of the texts: result [i] carries text
    [i], the N pairs of a category and the sigmoid of the logit of that
    category in row [i], and the categories row [i] puts above the
    threshold.  On the empty sequence it raises [IndexError]. *)
Theorem predict_preserves_order
        (tok : Tokenizer) (model : Model) (texts : list string) (t : R) :
  logits_shape model ->
  (texts = [] -> predict tok model texts t = raise IndexError) /\
  (texts <> [] ->
   exists results,
     predict tok model texts t = ok results /\
     length results = length texts /\
     forall i s, nth_error texts i = Some s ->
       exists row r,
         nth_error (model (encode_batch tok texts PadLongest 128)) i = Some row /\
         nth_error results i = Some r /\
         r = {| text := s;
                probabilities := combine emotion_labels (map sigmoid row);
                predicted_labels := decode (map sigmoid row) t |} /\
         text r = s /\
         length (probabilities r) = num_labels /\
         map fst (probabilities r) = emotion_labels).
Proof.
  intros Hshape. split.
  - intros ->. reflexivity.
  - intros Hne.
    destruct (predict_results tok model texts t Hshape Hne) as (results & Hres & Hlen & Hnth).
    exists results. split; [exact Hres|]. split; [exact Hlen|].
    intros i s Hi. destruct (Hnth i s Hi) as (row & Hrow & Hw & Hr).
    exists row. eexists. split; [exact Hrow|]. split; [exact Hr|].
    split; [reflexivity|]. split; [reflexivity|].
    cbn [probabilities]. apply probabilities_width. exact Hw.
Qed.

(** No text, and [custom_input], through the concrete collaborators. *)
Lemma predict_preserves_order_witness :
  predict char_tokenizer zero_model [] threshold = raise IndexError /\
  exists results,
    predict char_tokenizer zero_model custom_input threshold = ok results /\
    length results = length custom_input /\
    forall i s, nth_error custom_input i = Some s ->
      exists row r,
        nth_error (zero_model (encode_batch char_tokenizer custom_input PadLongest 128)) i
        = Some row /\
        nth_error results i = Some r /\
        r = {| text := s;
               probabilities := combine emotion_labels (map sigmoid row);
               predicted_labels := decode (map sigmoid row) threshold |} /\
        text r = s /\
        length (probabilities r) = num_labels /\
        map fst (probabilities r) = emotion_labels.
Proof.
  split.
  - apply (proj1 (predict_preserves_order char_tokenizer zero_model [] threshold
                    zero_model_shape)).
    reflexivity.
  - apply (proj2 (predict_preserves_order char_tokenizer zero_model custom_input threshold
                    zero_model_shape)).
    discriminate.
Defined.

(** C5.  Given a forward pass that returns logits of shape [[batch, N]] and
    at least one text, [predict] returns one result per text, and entry [j]
    of the probabilities of result [i] is the category at position [j] of
    the Label Space paired with the sigmoid of the logit at position
    [(i, j)], a number in [[0, 1]].  That entry depends on no other logit: a
    forward pass that returns the same logit at [(i, j)] gives the same
    entry, whatever else it returns.  Nothing is normalised across the
    labels: over logits that are all zero, the 28 probabilities of a result
    sum to 14, not to 1. *)
Theorem probabilities_are_per_logit_sigmoids
        (tok : Tokenizer) (texts : list string) (t : R) :
  (forall model : Model,
      logits_shape model ->
      texts <> [] ->
      exists results,
        predict tok model texts t = ok results /\
        length results = length texts /\
        (forall i r, nth_error results i = Some r ->
           exists row,
             nth_error (model (encode_batch tok texts PadLongest 128)) i = Some row /\
             length (probabilities r) = num_labels /\
             forall j, j < num_labels ->
               exists name x,
                 nth_error emotion_labels j = Some name /\
                 nth_error row j = Some x /\
                 nth_error (probabilities r) j = Some (name, sigmoid x) /\
                 (0 <= sigmoid x <= 1)%R) /\
        (forall (model' : Model) (results' : list PredictionResult),
            predict tok model' texts t = ok results' ->
            forall i j r r',
              entry (model (encode_batch tok texts PadLongest 128)) i j
              = entry (model' (encode_batch tok texts PadLongest 128)) i j ->
              nth_error results i = Some r ->
              nth_error results' i = Some r' ->
              nth_error (probabilities r) j = nth_error (probabilities r') j)) /\
  (forall results r,
      predict tok zero_model texts t = ok results ->
      In r results ->
      fold_right Rplus 0%R (map snd (probabilities r)) = 14%R).
Proof.
  split.
  - intros model Hshape Hne.
    destruct (Hshape (encode_batch tok texts PadLongest 128)) as [_ Hwidth].
    rewrite Forall_forall in Hwidth.
    destruct (predict_results tok model texts t Hshape Hne) as (results & Hres & Hlen & _).
    exists results. split; [exact Hres|]. split; [exact Hlen|]. split.
    + intros i r Hr.
      destruct (predict_result_at tok model texts t results i r Hres Hr)
        as (s & row & _ & Hrow & ->).
      pose proof (Hwidth row (nth_error_In _ _ Hrow)) as Hw.
      exists row. split; [exact Hrow|]. cbn [probabilities].
      split; [apply probabilities_width; exact Hw|].
      intros j Hj.
      destruct (nth_error emotion_labels j) as [name|] eqn:Hname;
        [|apply nth_error_None in Hname; rewrite emotion_labels_length in Hname; lia].
      destruct (nth_error row j) as [x|] eqn:Hx;
        [|apply nth_error_None in Hx; lia].
      exists name, x. split; [reflexivity|]. split; [reflexivity|]. split.
      * rewrite nth_error_combine, Hname, nth_error_map, Hx. reflexivity.
      * apply sigmoid_range.
    + intros model' results' Hres' i j r r' Hentry Hr Hr'.
      destruct (predict_result_at tok model texts t results i r Hres Hr)
        as (s & row & _ & Hrow & ->).
      destruct (predict_result_at tok model' texts t results' i r' Hres' Hr')
        as (s' & row' & _ & Hrow' & ->).
      unfold entry in Hentry. rewrite Hrow, Hrow' in Hentry.
      cbn [probabilities]. rewrite !nth_error_combine, !nth_error_map, Hentry.
      reflexivity.
  - intros results r Hres Hin.
    destruct (In_nth_error _ _ Hin) as [i Hr].
    destruct (predict_result_at tok zero_model texts t results i r Hres Hr)
      as (s & row & _ & Hrow & ->).
    assert (Hzero : row = repeat 0%R num_labels).
    { apply nth_error_In in Hrow. unfold zero_model in Hrow.
      apply in_map_iff in Hrow. destruct Hrow as (ids & <- & _). reflexivity. }
    subst row. cbn [probabilities].
    rewrite map_snd_combine, emotion_labels_length.
    rewrite firstn_all2 by (rewrite length_map, repeat_length; lia).
    rewrite map_repeat, sigmoid_0. unfold num_labels. simpl. lra.
Qed.

(** [custom_input] through the concrete collaborators. *)
Lemma probabilities_are_per_logit_sigmoids_witness :
  (exists results,
      predict char_tokenizer zero_model custom_input threshold = ok results /\
      length results = length custom_input /\
      (forall i r, nth_error results i = Some r ->
         exists row,
           nth_error (zero_model (encode_batch char_tokenizer custom_input PadLongest 128)) i
           = Some row /\
           length (probabilities r) = num_labels /\
           forall j, j < num_labels ->
             exists name x,
               nth_error emotion_labels j = Some name /\
               nth_error row j = Some x /\
               nth_error (probabilities r) j = Some (name, sigmoid x) /\
               (0 <= sigmoid x <= 1)%R) /\
      (forall (model' : Model) (results' : list PredictionResult),
          predict char_tokenizer model' custom_input threshold = ok results' ->
          forall i j r r',
            entry (zero_model (encode_batch char_tokenizer custom_input PadLongest 128)) i j
            = entry (model' (encode_batch char_tokenizer custom_input PadLongest 128)) i j ->
            nth_error results i = Some r ->
            nth_error results' i = Some r' ->
            nth_error (probabilities r) j = nth_error (probabilities r') j)) /\
  fold_right Rplus 0%R
    (map snd (combine emotion_labels (map sigmoid (repeat 0%R num_labels)))) = 14%R.
Proof.
  split.
  - apply (proj1 (probabilities_are_per_logit_sigmoids char_tokenizer custom_input threshold)
                 zero_model zero_model_shape).
    discriminate.
  - destruct (predict_results char_tokenizer zero_model custom_input threshold
                zero_model_shape ltac:(discriminate)) as (results & Hres & _ & Hnth).
    destruct (Hnth 0 _ eq_refl) as (row & Hrow & _ & Hr).
    assert (Hzero : row = repeat 0%R num_labels).
    { cbn in Hrow. apply (f_equal (fun o => match o with Some x => x | None => [] end)) in Hrow.
      symmetry. exact Hrow. }
    subst row.
    apply (proj2 (probabilities_are_per_logit_sigmoids char_tokenizer custom_input threshold)
                 results _ Hres (nth_error_In _ _ Hr)).
Defined.

(** * Accuracy cell: argmax predictions against raw labels *)

Lemma count_matches_filter (predictions : list nat) :
  forall references,
    count_matches predictions references
    = length (filter (fun '(k, l) => (Z.of_nat k =? l)%Z)
                     (combine predictions references)).
Proof.
  induction predictions as [|p ps IH]; intros [|r rs]; try reflexivity.
  cbn [count_matches combine filter]. rewrite IH.
  destruct (Z.of_nat p =? r)%Z; reflexivity.
Qed.

(** C9.  Given logits of shape [[batch, N]], at least one text and as many
    raw labels (32-bit integers) as texts, the accuracy cell predicts, for
    each input, the single index of the first maximal logit of its row, and
    reports the number of inputs whose index equals the raw integer label,
    divided by the number of inputs.  This is not the thresholded decoding:
    on a row of zero logits it predicts index 0 where the thresholded
    decoding predicts no category. *)
Theorem accuracy_predictions_are_argmax :
  (forall (tok : Tokenizer) (model : Model) (texts : list string) (label_column : list Z),
      logits_shape model ->
      texts <> [] ->
      length label_column = length texts ->
      Forall (fun l => (-2147483648 <= l < 2147483648)%Z) label_column ->
      exists predictions,
        accuracy_predictions tok model texts = ok predictions /\
        length predictions = length texts /\
        (forall i row,
            nth_error (model (encode_batch tok texts PadLongest 128)) i = Some row ->
            exists k,
              nth_error predictions i = Some k /\
              k < num_labels /\
              (forall j x, nth_error row j = Some x -> (x <= nth k row 0)%R) /\
              (forall j, j < k -> (nth j row 0 < nth k row 0)%R)) /\
        evaluate_accuracy tok model texts label_column
        = ok (INR (length (filter (fun '(k, l) => (Z.of_nat k =? l)%Z)
                                  (combine predictions label_column)))
              / INR (length texts))%R) /\
  (argmax (repeat 0%R num_labels) = ok 0 /\
   decode (map sigmoid (repeat 0%R num_labels)) threshold = []).
Proof.
  split.
  - intros tok model texts col Hshape Htexts Hcol Hint.
    destruct (Hshape (encode_batch tok texts PadLongest 128)) as [Hlen Hwidth].
    set (logits := model (encode_batch tok texts PadLongest 128)) in *.
    assert (Hn : length logits = length texts).
    { rewrite Hlen. unfold encode_batch. cbn [input_ids]. rewrite !length_map. reflexivity. }
    rewrite Forall_forall in Hwidth.
    assert (Hne : forall row, In row logits -> row <> []).
    { intros row Hin ->. apply Hwidth in Hin. discriminate. }
    destruct (collect_total argmax logits) as [predictions Hp].
    { intros row Hin. destruct (argmax_spec row (Hne row Hin)) as (k & Hk & _). eauto. }
    destruct (collect_ok argmax _ _ Hp) as [Hpl Hnth].
    assert (Hap : accuracy_predictions tok model texts = ok predictions).
    { unfold accuracy_predictions. rewrite (tokenizer_ok tok texts _ _ Htexts), bind_ok.
      exact Hp. }
    exists predictions.
    split; [exact Hap|]. split; [congruence|]. split.
    + intros i row Hrow. destruct (Hnth i row Hrow) as (k & Hk & Harg).
      pose proof (nth_error_In _ _ Hrow) as Hin.
      destruct (argmax_spec row (Hne row Hin)) as (k' & Hk' & Hlt & Hmax & Hfirst).
      assert (k = k') by (apply ok_inj; congruence). subst k'.
      exists k. rewrite (Hwidth row Hin) in Hlt. auto.
    + unfold evaluate_accuracy. rewrite Hap, bind_ok. unfold accuracy.
      replace (length predictions) with (length col) by congruence.
      rewrite Nat.eqb_refl.
      assert (Hall : forallb int32 col = true).
      { apply forallb_forall. intros l Hl. rewrite Forall_forall in Hint.
        specialize (Hint l Hl). unfold int32.
        apply andb_true_intro. split; [apply Z.leb_le | apply Z.ltb_lt]; lia. }
      rewrite Hall. cbn [andb].
      rewrite count_matches_filter, Hcol. reflexivity.
  - split.
    + change (repeat 0%R num_labels) with (0%R :: repeat 0%R 27).
      cbn [argmax]. rewrite argmax_from_constant. reflexivity.
    + apply decode_ties. rewrite map_repeat, sigmoid_0.
      apply Forall_forall. intros x Hx. apply repeat_spec in Hx. subst.
      unfold threshold. lra.
Qed.

(** [custom_input] against three raw labels. *)
Lemma accuracy_predictions_are_argmax_witness :
  exists predictions,
    accuracy_predictions char_tokenizer zero_model custom_input = ok predictions /\
    length predictions = length custom_input /\
    (forall i row,
        nth_error (zero_model (encode_batch char_tokenizer custom_input PadLongest 128)) i
        = Some row ->
        exists k,
          nth_error predictions i = Some k /\
          k < num_labels /\
          (forall j x, nth_error row j = Some x -> (x <= nth k row 0)%R) /\
          (forall j, j < k -> (nth j row 0 < nth k row 0)%R)) /\
    evaluate_accuracy char_tokenizer zero_model custom_input [0; 5; 0]%Z
    = ok (INR (length (filter (fun '(k, l) => (Z.of_nat k =? l)%Z)
                              (combine predictions [0; 5; 0]%Z)))
          / INR (length custom_input))%R.
Proof.
  apply (proj1 accuracy_predictions_are_argmax
               char_tokenizer zero_model custom_input [0; 5; 0]%Z).
  - exact zero_model_shape.
  - discriminate.
  - reflexivity.
  - repeat constructor; lia.
Defined.
